(** * lsdb.io.to_hipscat : exporting a partitioned catalog in HiPSCat layout

    A shallow embedding of [src/lsdb/io/to_hipscat.py].

    - Python dictionaries are insertion-ordered association lists with
      unique keys ([PyDict]).
    - The hipscat catalog structure and its [catalog_info] dataclass are
      mutable Python objects: they live in a store addressed by references,
      so that [copy] and attribute assignment have their aliasing behaviour.
    - The file-system calls (those of hipscat, and
      [lsdb.io.file_io.write_dataframe_to_parquet]) are collaborators
      behind an interface.  Each completed call is appended to a log (the [disk]);
      whether a call raises is decided by an oracle that is a parameter of
      the development.  Exceptions propagate as in Python: the store and the
      disk keep whatever was done before the raise. *)

From Stdlib Require Import ZArith String.
From stdpp Require Import base option list gmap strings pretty.

Local Open Scope string_scope.
Local Open Scope list_scope.

(** ** Python dictionaries *)

Module PyDict.
Section ops.
Context {K V : Type} `{EqDecision K}.

(** [d[k] = v]: an existing key keeps its position, a new key goes last. *)
Fixpoint set (k : K) (v : V) (d : list (K * V)) : list (K * V) :=
  match d with
  | [] => [(k, v)]
  | (k', v') :: d' =>
      if decide (k = k') then (k', v) :: d' else (k', v') :: set k v d'
  end.

(** [d.get(k)] *)
Fixpoint get (k : K) (d : list (K * V)) : option V :=
  match d with
  | [] => None
  | (k', v') :: d' => if decide (k = k') then Some v' else get k d'
  end.

Definition items (d : list (K * V)) : list (K * V) := d.
Definition keys (d : list (K * V)) : list K := d.*1.
Definition values (d : list (K * V)) : list V := d.*2.

(** The invariant of every Python dictionary: keys are pairwise distinct. *)
Definition wf (d : list (K * V)) : Prop := NoDup (keys d).
End ops.
End PyDict.

Abbreviation dict K V := (list (K * V)).

(** ** Data *)

(** [hipscat.pixel_math.HealpixPixel], a frozen dataclass of two ints. *)
Record HealpixPixel := mkHealpixPixel { order : Z; pixel : Z }.

Global Instance HealpixPixel_eq_dec : EqDecision HealpixPixel.
Proof. solve_decision. Defined.

(** [lsdb.types.HealpixInfo = Tuple[int, List[int]]] *)
Abbreviation HealpixInfo := (Z * list Z)%type.

(** [hipscat.io.FilePointer] is a [NewType] of [str]. *)
Abbreviation FilePointer := string.

(** [storage_options: Union[Dict[Any, Any], None]], opaque to the exporter. *)
Abbreviation StorageOptions := (option (list (string * string))).

(** A materialised partition (a pandas dataframe): its rows.  The exporter
    only takes [len] of it and hands it to the parquet writer. *)
Abbreviation DataFrame := (list (list string)).

(** The [CatalogInfo] dataclass of hipscat. *)
Record CatalogInfo := mkCatalogInfo {
  ci_catalog_name : string;
  ci_catalog_type : string;
  ci_total_rows : Z;
  ci_epoch : string;
  ci_ra_column : string;
  ci_dec_column : string
}.

Abbreviation loc := nat.

(** The attributes of a [hipscat.catalog.Catalog] object.  [catalog_info]
    holds a reference to a [CatalogInfo] object; [storage_options] and
    [partition_info] stand for the attributes the exporter never assigns. *)
Record HCCatalog := mkHCCatalog {
  catalog_info : loc;
  catalog_name : string;
  catalog_path : string;
  on_disk : bool;
  catalog_base_dir : FilePointer;
  hc_storage_options : StorageOptions;
  hc_partition_info : list HealpixPixel
}.

(** An [lsdb] catalog: the dask dataframe's partitions, the map from pixel
    to partition index and a reference to the hipscat structure. *)
Record Catalog := mkCatalog {
  hc_structure : loc;
  _ddf : list DataFrame;
  _ddf_pixel_map : dict HealpixPixel nat
}.

(** The dictionary returned by [_get_provenance_info]: three fixed keys,
    the third holding the dictionary of runtime arguments. *)
Record ProvenanceInfo := mkProvenanceInfo {
  tool_name : string;
  version_ : string;
  runtime_args : dict string string
}.

(** ** Effects *)

(** Calls into the external I/O layer, with their arguments as passed. *)
Inductive io_call :=
| MakeDirectory (fp : FilePointer)
| WriteDataframeToParquet (df : DataFrame) (path : FilePointer) (so : StorageOptions)
| WriteParquetMetadata (base : string) (so : StorageOptions)
| WritePartitionInfo (fp : FilePointer) (info : dict HealpixPixel HealpixInfo) (so : StorageOptions)
| WriteCatalogInfo (base : string) (info : CatalogInfo) (so : StorageOptions)
| WriteProvenanceInfo (fp : FilePointer) (info : CatalogInfo) (tool_args : ProvenanceInfo) (so : StorageOptions).

(** Exceptions.  [OSError] is what the I/O layer raises, [IndexError] what
    indexing the partitions out of range raises.  The three wrappers are
    the error classes the specification names; no statement of the source
    constructs them.  [DanglingReference] has no Python counterpart: it is
    the outcome of dereferencing a location absent from the store. *)
Inductive exn :=
| OSError (msg : string)
| IndexError
| DanglingReference
| DirectoryCreationError (cause : exn)
| PartitionWriteError (cause : exn)
| MetadataWriteError (cause : exn).

Inductive result (A : Type) :=
| Ok (a : A)
| Raise (e : exn).
Arguments Ok {A} a.
Arguments Raise {A} e.

Record State := mkState {
  structs : gmap loc HCCatalog;
  infos : gmap loc CatalogInfo;
  disk : list io_call
}.

Definition M (A : Type) : Type := State -> result A * State.

Definition ret {A} (a : A) : M A := fun σ => (Ok a, σ).

Definition bind {A B} (m : M A) (k : A -> M B) : M B :=
  fun σ => match m σ with
           | (Ok a, σ') => k a σ'
           | (Raise e, σ') => (Raise e, σ')
           end.

Definition raise {A} (e : exn) : M A := fun σ => (Raise e, σ).

Global Instance M_ret : MRet M := @ret.
Global Instance M_bind : MBind M := fun A B k m => bind m k.

(** *** The store *)

Definition getattr_hc (r : loc) : M HCCatalog :=
  fun σ => match structs σ !! r with
           | Some s => (Ok s, σ)
           | None => (Raise DanglingReference, σ)
           end.

Definition getattr_info (r : loc) : M CatalogInfo :=
  fun σ => match infos σ !! r with
           | Some i => (Ok i, σ)
           | None => (Raise DanglingReference, σ)
           end.

Definition new_hc (s : HCCatalog) : M loc :=
  fun σ => let r := fresh (dom (structs σ)) in
           (Ok r, mkState (<[r := s]> (structs σ)) (infos σ) (disk σ)).

Definition new_info (i : CatalogInfo) : M loc :=
  fun σ => let r := fresh (dom (infos σ)) in
           (Ok r, mkState (structs σ) (<[r := i]> (infos σ)) (disk σ)).

(** [obj.attr = v] on a catalog structure: the object at [r] is updated in
    place, every alias of [r] sees the change. *)
Definition setattr_hc (r : loc) (f : HCCatalog -> HCCatalog) : M unit :=
  fun σ => match structs σ !! r with
           | Some s => (Ok tt, mkState (<[r := f s]> (structs σ)) (infos σ) (disk σ))
           | None => (Raise DanglingReference, σ)
           end.

(** [copy.copy(obj)]: a new object with the same attribute values, so the
    [catalog_info] reference is shared with the original. *)
Definition copy (r : loc) : M loc :=
  s ← getattr_hc r; new_hc s.

Definition with_catalog_name (v : string) (s : HCCatalog) : HCCatalog :=
  mkHCCatalog (catalog_info s) v (catalog_path s) (on_disk s)
    (catalog_base_dir s) (hc_storage_options s) (hc_partition_info s).
Definition with_catalog_path (v : string) (s : HCCatalog) : HCCatalog :=
  mkHCCatalog (catalog_info s) (catalog_name s) v (on_disk s)
    (catalog_base_dir s) (hc_storage_options s) (hc_partition_info s).
Definition with_catalog_base_dir (v : FilePointer) (s : HCCatalog) : HCCatalog :=
  mkHCCatalog (catalog_info s) (catalog_name s) (catalog_path s) (on_disk s)
    v (hc_storage_options s) (hc_partition_info s).
Definition with_on_disk (v : bool) (s : HCCatalog) : HCCatalog :=
  mkHCCatalog (catalog_info s) (catalog_name s) (catalog_path s) v
    (catalog_base_dir s) (hc_storage_options s) (hc_partition_info s).
Definition with_catalog_info (v : loc) (s : HCCatalog) : HCCatalog :=
  mkHCCatalog v (catalog_name s) (catalog_path s) (on_disk s)
    (catalog_base_dir s) (hc_storage_options s) (hc_partition_info s).

(** The keyword arguments [**kwargs] forwarded to [dataclasses.replace]:
    each field of [CatalogInfo] other than [catalog_name] (which is a named
    parameter of the caller and so never lands in [kwargs]) is given or not. *)
Record ReplaceKwargs := mkReplaceKwargs {
  kw_catalog_type : option string;
  kw_total_rows : option Z;
  kw_epoch : option string;
  kw_ra_column : option string;
  kw_dec_column : option string
}.

Definition total_rows_kwarg (n : Z) : ReplaceKwargs :=
  mkReplaceKwargs None (Some n) None None None.

(** [dataclasses.replace(obj, catalog_name=..., **kwargs)]: a new object;
    the fields that are not given keep the value they have in [obj]. *)
Definition replaced (i : CatalogInfo) (name : string) (kw : ReplaceKwargs) : CatalogInfo :=
  mkCatalogInfo name
    (default (ci_catalog_type i) (kw_catalog_type kw))
    (default (ci_total_rows i) (kw_total_rows kw))
    (default (ci_epoch i) (kw_epoch kw))
    (default (ci_ra_column i) (kw_ra_column kw))
    (default (ci_dec_column i) (kw_dec_column kw)).

Definition dataclasses_replace (r : loc) (name : string) (kw : ReplaceKwargs) : M loc :=
  i ← getattr_info r; new_info (replaced i name kw).

(** Python's [sum] over ints. *)
Definition sum (l : list Z) : Z := foldl Z.add 0%Z l.

(** The conditional expression [x if x else y] for [x : str | None]:
    [None] and the empty string are falsy, [y] is evaluated only then. *)
Definition if_truthy_else (x : option string) (y : M string) : M string :=
  match x with
  | Some n => if decide (n = "") then y else ret n
  | None => y
  end.

(** ** The exporter *)

(** The external collaborators the exporter is linked against. *)
Record Env := mkEnv {
  (** [hc.io.get_file_pointer_from_path] *)
  get_file_pointer_from_path : string -> FilePointer;
  (** [hc.io.paths.pixel_catalog_file] *)
  pixel_catalog_file : FilePointer -> Z -> Z -> FilePointer;
  (** [importlib.metadata.version] *)
  version : string -> string;
  (** The behaviour of the I/O layer: given the calls completed so far,
      whether the next call raises, and what. *)
  io_outcome : list io_call -> io_call -> option exn
}.

Section exporter.
Variable E : Env.

(** One call into the I/O layer. *)
Definition io (c : io_call) : M unit :=
  fun σ => match io_outcome E (disk σ) c with
           | Some e => (Raise e, σ)
           | None => (Ok tt, mkState (structs σ) (infos σ) (disk σ ++ [c]))
           end.

(** Modelled from the spec: [lsdb.io.file_io.write_dataframe_to_parquet],
    a function of this repository whose source is not among the files at
    hand.  The specification has it as the collaborator
    [WriteDataFile(table, path, storageOptions)] of the file-system
    abstraction, which writes the table as a single data file at the path
    and may fail with a transport or permission error: one call into the
    I/O layer, that raises what the layer raises. *)
Definition write_dataframe_to_parquet (dataframe : DataFrame) (path : FilePointer)
    (storage_options : StorageOptions) : M unit :=
  io (WriteDataframeToParquet dataframe path storage_options).

(** [catalog._ddf.partitions[partition_index].compute()] *)
Definition compute_partition (catalog : Catalog) (partition_index : nat) : M DataFrame :=
  match _ddf catalog !! partition_index with
  | Some partition => ret partition
  | None => raise IndexError
  end.

(** The body of the [for] loop of [write_partitions], over the remaining
    items, threading the dictionary being filled. *)
Fixpoint write_partitions_loop (catalog : Catalog) (base_catalog_dir_fp : FilePointer)
    (storage_options : StorageOptions) (todo : list (HealpixPixel * nat))
    (pixel_to_partition_size_map : dict HealpixPixel Z) : M (dict HealpixPixel Z) :=
  match todo with
  | [] => ret pixel_to_partition_size_map
  | (px, partition_index) :: todo' =>
      partition ← compute_partition catalog partition_index;
      let pixel_path := pixel_catalog_file E base_catalog_dir_fp (order px) (pixel px) in
      write_dataframe_to_parquet partition pixel_path storage_options ;;
      write_partitions_loop catalog base_catalog_dir_fp storage_options todo'
        (PyDict.set px (Z.of_nat (length partition)) pixel_to_partition_size_map)
  end.

Definition write_partitions (catalog : Catalog) (base_catalog_dir_fp : FilePointer)
    (storage_options : StorageOptions) : M (dict HealpixPixel Z) :=
  write_partitions_loop catalog base_catalog_dir_fp storage_options
    (PyDict.items (_ddf_pixel_map catalog)) [].

(** The dictionary comprehension
    [{pixel: (length, [pixel.pixel]) for pixel, length in m.items()}]. *)
Definition _get_partition_info_dict (ddf_points_map : dict HealpixPixel Z)
    : dict HealpixPixel HealpixInfo :=
  foldl (fun acc '(px, length) => PyDict.set px (length, [pixel px]) acc)
    [] (PyDict.items ddf_points_map).

Definition create_modified_catalog_structure (catalog_structure : loc)
    (catalog_base_dir_ : string) (catalog_name_ : string) (kwargs : ReplaceKwargs) : M loc :=
  new_hc_structure ← copy catalog_structure;
  setattr_hc new_hc_structure (with_catalog_name catalog_name_) ;;
  setattr_hc new_hc_structure (with_catalog_path catalog_base_dir_) ;;
  setattr_hc new_hc_structure
    (with_catalog_base_dir (get_file_pointer_from_path E catalog_base_dir_)) ;;
  setattr_hc new_hc_structure (with_on_disk true) ;;
  (s ← getattr_hc new_hc_structure;
   i ← dataclasses_replace (catalog_info s) catalog_name_ kwargs;
   setattr_hc new_hc_structure (with_catalog_info i)) ;;
  ret new_hc_structure.

Definition _get_provenance_info (catalog_structure : loc) : M ProvenanceInfo :=
  s ← getattr_hc catalog_structure;
  catalog_info_ ← getattr_info (catalog_info s);
  let args :=
    [ ("catalog_name", catalog_name s);
      ("output_path", catalog_path s);
      ("output_catalog_name", catalog_name s);
      ("catalog_path", catalog_path s);
      ("epoch", ci_epoch catalog_info_);
      ("catalog_type", ci_catalog_type catalog_info_);
      ("ra_column", ci_ra_column catalog_info_);
      ("dec_column", ci_dec_column catalog_info_) ] in
  ret (mkProvenanceInfo "lsdb" (version E "lsdb") args).

Definition to_hipscat (catalog : Catalog) (base_catalog_path : string)
    (catalog_name_ : option string) (storage_options : StorageOptions) : M unit :=
  let base_catalog_dir_fp := get_file_pointer_from_path E base_catalog_path in
  io (MakeDirectory base_catalog_dir_fp) ;;
  pixel_to_partition_size_map ←
    write_partitions catalog base_catalog_dir_fp storage_options;
  io (WriteParquetMetadata base_catalog_path storage_options) ;;
  let partition_info := _get_partition_info_dict pixel_to_partition_size_map in
  io (WritePartitionInfo base_catalog_dir_fp partition_info storage_options) ;;
  name ← if_truthy_else catalog_name_
           (s ← getattr_hc (hc_structure catalog); ret (catalog_name s));
  new_hc_structure ←
    create_modified_catalog_structure (hc_structure catalog) base_catalog_path name
      (total_rows_kwarg (sum ((PyDict.values partition_info).*1)));
  new_s ← getattr_hc new_hc_structure;
  dataset_info ← getattr_info (catalog_info new_s);
  io (WriteCatalogInfo base_catalog_path dataset_info storage_options) ;;
  new_s ← getattr_hc new_hc_structure;
  dataset_info ← getattr_info (catalog_info new_s);
  tool_args ← _get_provenance_info new_hc_structure;
  io (WriteProvenanceInfo base_catalog_dir_fp dataset_info tool_args storage_options).

End exporter.

(** ** Vocabulary of the statements *)

(** The partition a tile is mapped to, and its row count. *)
Definition partition_of (catalog : Catalog) (partition_index : nat) : DataFrame :=
  match _ddf catalog !! partition_index with
  | Some partition => partition
  | None => []
  end.

Definition rows_of (catalog : Catalog) (partition_index : nat) : Z :=
  Z.of_nat (length (partition_of catalog partition_index)).

(** The write issued for one item of the pixel map. *)
Definition tile_write (E : Env) (catalog : Catalog) (fp : FilePointer)
    (so : StorageOptions) (item : HealpixPixel * nat) : io_call :=
  WriteDataframeToParquet (partition_of catalog item.2)
    (pixel_catalog_file E fp (order item.1) (pixel item.1)) so.

(** Every tile of the pixel map designates a partition of the dataframe. *)
Definition indices_valid (catalog : Catalog) (todo : list (HealpixPixel * nat)) : Prop :=
  Forall (fun item => is_Some (_ddf catalog !! item.2)) todo.

(** The name [to_hipscat] passes on, given the override and the structure. *)
Definition effective_name (catalog_name_ : option string) (s : HCCatalog) : string :=
  match catalog_name_ with
  | Some n => if decide (n = "") then catalog_name s else n
  | None => catalog_name s
  end.

(** The descriptors an I/O log shows as written with [write_catalog_info],
    the tool arguments it shows as written with [write_provenance_info] and
    the paths it shows as written with [write_dataframe_to_parquet]. *)
Definition catalog_infos_written (log : list io_call) : list CatalogInfo :=
  omap (fun c => match c with WriteCatalogInfo _ i _ => Some i | _ => None end) log.

Definition provenance_written (log : list io_call) : list ProvenanceInfo :=
  omap (fun c => match c with WriteProvenanceInfo _ _ p _ => Some p | _ => None end) log.

Definition data_files_written (log : list io_call) : list FilePointer :=
  omap (fun c => match c with WriteDataframeToParquet _ path _ => Some path | _ => None end) log.

(** The calls completed between two states of one run. *)
Definition new_calls (σ σ' : State) : list io_call :=
  drop (length (disk σ)) (disk σ').

(** Two descriptors that agree on every field but the name. *)
Definition same_but_name (a b : CatalogInfo) : Prop :=
  ci_catalog_type a = ci_catalog_type b ∧
  ci_total_rows a = ci_total_rows b ∧
  ci_epoch a = ci_epoch b ∧
  ci_ra_column a = ci_ra_column b ∧
  ci_dec_column a = ci_dec_column b.

(** The partition info dictionaries a log shows as written with
    [write_partition_info]. *)
Definition partition_infos_written (log : list io_call)
    : list (dict HealpixPixel HealpixInfo) :=
  omap (fun c => match c with WritePartitionInfo _ info _ => Some info | _ => None end) log.

(** The function of the I/O layer a call goes to. *)
Inductive call_kind :=
| KMakeDirectory
| KWriteDataframeToParquet
| KWriteParquetMetadata
| KWritePartitionInfo
| KWriteCatalogInfo
| KWriteProvenanceInfo.

Definition kind_of (c : io_call) : call_kind :=
  match c with
  | MakeDirectory _ => KMakeDirectory
  | WriteDataframeToParquet _ _ _ => KWriteDataframeToParquet
  | WriteParquetMetadata _ _ => KWriteParquetMetadata
  | WritePartitionInfo _ _ _ => KWritePartitionInfo
  | WriteCatalogInfo _ _ _ => KWriteCatalogInfo
  | WriteProvenanceInfo _ _ _ _ => KWriteProvenanceInfo
  end.

(** One state extends another: every object of the store is still there
    with the same attributes, and the disk log has only grown. *)
Definition extends (σ σ' : State) : Prop :=
  structs σ ⊆ structs σ' ∧ infos σ ⊆ infos σ' ∧ disk σ `prefix_of` disk σ'.

(** A computation that, from any state, extends it, with calls that all
    satisfy [P] when it raises and [Q] when it returns. *)
Definition logs (P Q : io_call -> Prop) {A} (m : M A) : Prop :=
  forall σ r σ', m σ = (r, σ') ->
    structs σ ⊆ structs σ' ∧ infos σ ⊆ infos σ' ∧
    exists log, disk σ' = disk σ ++ log ∧
      match r with
      | Ok _ => Forall Q log
      | Raise _ => Forall P log
      end.

(** The storage options a call is made with; [make_directory] is called
    with the file pointer alone. *)
Definition call_storage_options (c : io_call) : option StorageOptions :=
  match c with
  | MakeDirectory _ => None
  | WriteDataframeToParquet _ _ so => Some so
  | WriteParquetMetadata _ so => Some so
  | WritePartitionInfo _ _ so => Some so
  | WriteCatalogInfo _ _ so => Some so
  | WriteProvenanceInfo _ _ _ so => Some so
  end.


(** Keyword arguments of a later call over those of an earlier one. *)
Definition or_else {A} (later earlier : option A) : option A :=
  match later with
  | Some v => Some v
  | None => earlier
  end.

Definition merge_kwargs (later earlier : ReplaceKwargs) : ReplaceKwargs :=
  mkReplaceKwargs
    (or_else (kw_catalog_type later) (kw_catalog_type earlier))
    (or_else (kw_total_rows later) (kw_total_rows earlier))
    (or_else (kw_epoch later) (kw_epoch earlier))
    (or_else (kw_ra_column later) (kw_ra_column earlier))
    (or_else (kw_dec_column later) (kw_dec_column earlier)).

(** ** Concrete collaborators and catalogs

    A small world to run the exporter in: paths are plain strings, the
    tile path follows the [Norder=K/Dir=D/Npix=N.parquet] layout, and three
    I/O layers: one that never fails, one whose disk is full when the tile
    of pixel 4 is written, one where the destination cannot be created. *)

Module Demo.

Definition fp_of (path : string) : FilePointer := path.

Definition tile_path (base : FilePointer) (k n : Z) : FilePointer :=
  base +:+ "/Norder=" +:+ pretty k +:+ "/Dir=" +:+ pretty (n / 10000 * 10000)%Z
       +:+ "/Npix=" +:+ pretty n +:+ ".parquet".

Definition lsdb_version (_ : string) : string := "0.1.0".

Definition always_ok (_ : list io_call) (_ : io_call) : option exn := None.

Definition disk_full (_ : list io_call) (c : io_call) : option exn :=
  match c with
  | WriteDataframeToParquet _ path _ =>
      if decide (path = "/out/Norder=1/Dir=0/Npix=4.parquet")
      then Some (OSError "No space left on device") else None
  | _ => None
  end.

Definition occupied (_ : list io_call) (c : io_call) : option exn :=
  match c with
  | MakeDirectory _ => Some (OSError "File exists")
  | _ => None
  end.

Definition env_ok : Env := mkEnv fp_of tile_path lsdb_version always_ok.
Definition env_disk_full : Env := mkEnv fp_of tile_path lsdb_version disk_full.
Definition env_occupied : Env := mkEnv fp_of tile_path lsdb_version occupied.

Definition rows (n : nat) : DataFrame := replicate n ["10.0"; "-5.0"].

Definition small_sky_info : CatalogInfo :=
  mkCatalogInfo "small_sky" "object" 131 "J2000" "ra" "dec".

Definition small_sky_hc : HCCatalog :=
  mkHCCatalog 0 "small_sky" "/data/small_sky" true "/data/small_sky" None
    [mkHealpixPixel 1 3; mkHealpixPixel 1 4].

Definition store : State := mkState {[ 0%nat := small_sky_hc ]} {[ 0%nat := small_sky_info ]} [].

(** Two tiles of order 1, with 5 and 7 rows. *)
Definition small_sky : Catalog :=
  mkCatalog 0 [rows 5; rows 7]
    [(mkHealpixPixel 1 3, 0%nat); (mkHealpixPixel 1 4, 1%nat)].

(** The same, with an empty partition for pixel 3. *)
Definition sparse_sky : Catalog :=
  mkCatalog 0 [rows 0; rows 7]
    [(mkHealpixPixel 1 3, 0%nat); (mkHealpixPixel 1 4, 1%nat)].

(** The states the runs below end in. *)
Definition exported (override : option string) : State :=
  (to_hipscat env_ok small_sky "/out" override None store).2.

Definition sparse_counts : dict HealpixPixel Z :=
  [(mkHealpixPixel 1 3, 0%Z); (mkHealpixPixel 1 4, 7%Z)].

Definition sparse_written : State :=
  (write_partitions env_ok sparse_sky "/out" None store).2.

Definition dir_made : State := (io env_disk_full (MakeDirectory "/out") store).2.

Definition disk_filled : State :=
  (write_partitions env_disk_full small_sky "/out" None dir_made).2.

Definition modified : State :=
  (create_modified_catalog_structure env_ok 0 "/out" "copy" (total_rows_kwarg 12) store).2.

(** A catalog without tiles, and one whose second tile designates a
    partition that does not exist. *)
Definition empty_sky : Catalog := mkCatalog 0 [] [].

Definition broken_sky : Catalog :=
  mkCatalog 0 [rows 5]
    [(mkHealpixPixel 1 3, 0%nat); (mkHealpixPixel 1 4, 1%nat)].

(** An I/O layer that refuses the parquet metadata. *)
Definition metadata_refused (_ : list io_call) (c : io_call) : option exn :=
  match c with
  | WriteParquetMetadata _ _ => Some (OSError "Permission denied")
  | _ => None
  end.

Definition env_metadata_refused : Env :=
  mkEnv fp_of tile_path lsdb_version metadata_refused.

Definition credentials : StorageOptions := Some [("token", "secret")].

Definition exported_empty : State :=
  (to_hipscat env_ok empty_sky "/out" None None store).2.

Definition exported_again : State :=
  (to_hipscat env_ok small_sky "/out" None None (exported None)).2.

Definition exported_with_credentials : State :=
  (to_hipscat env_ok small_sky "/out" None credentials store).2.

Definition dir_made_ok : State := (io env_ok (MakeDirectory "/out") store).2.

Definition broken_written : State :=
  (write_partitions env_ok broken_sky "/out" None dir_made_ok).2.

Definition dir_made_refusing : State :=
  (io env_metadata_refused (MakeDirectory "/out") store).2.

Definition tiles_written_refusing : State :=
  (write_partitions env_metadata_refused small_sky "/out" None dir_made_refusing).2.

Definition small_sky_counts : dict HealpixPixel Z :=
  [(mkHealpixPixel 1 3, 5%Z); (mkHealpixPixel 1 4, 7%Z)].

Definition renamed_twice : State :=
  (create_modified_catalog_structure env_ok 1 "/final" "second"
     (mkReplaceKwargs None None (Some "J2015.5") None None)
     (create_modified_catalog_structure env_ok 0 "/out" "first"
        (total_rows_kwarg 12) store).2).2.

End Demo.

(** * Properties *)

(** ** Dictionaries *)

Section dict_facts.
Context {K V : Type} `{EqDecision K}.
Implicit Types (k : K) (v : V) (d : list (K * V)).

Lemma set_fresh k v d : k ∉ PyDict.keys d → PyDict.set k v d = d ++ [(k, v)].
Proof.
  induction d as [|[k' v'] d IH]; simpl; [done|].
  rewrite not_elem_of_cons. intros [Hne Hd].
  rewrite decide_False by done. by rewrite IH.
Qed.

Lemma keys_set_elem k v d : k ∈ PyDict.keys d → PyDict.keys (PyDict.set k v d) = PyDict.keys d.
Proof.
  induction d as [|[k' v'] d IH]; simpl.
  - by intros ?%elem_of_nil.
  - intros Hin. case_decide; [done|].
    simpl. f_equal. apply IH.
    by apply elem_of_cons in Hin as [?|?].
Qed.

Lemma wf_nil : PyDict.wf (@nil (K * V)).
Proof. apply NoDup_nil_2. Qed.

Lemma wf_set k v d : PyDict.wf d → PyDict.wf (PyDict.set k v d).
Proof.
  unfold PyDict.wf. intros Hd. destruct (decide (k ∈ PyDict.keys d)) as [Hin|Hout].
  - by rewrite keys_set_elem.
  - rewrite set_fresh by done. unfold PyDict.keys in *. rewrite fmap_app. simpl.
    apply NoDup_app. split_and!; [done| |apply NoDup_singleton].
    by intros x Hx ->%list_elem_of_singleton.
Qed.

Lemma get_Some_elem k v d : PyDict.get k d = Some v → (k, v) ∈ d.
Proof.
  induction d as [|[k' v'] d IH]; simpl; [done|].
  case_decide as Hk.
  - intros [= ->]. subst. apply list_elem_of_here.
  - intros. apply list_elem_of_further. auto.
Qed.

Lemma elem_get_Some k v d : PyDict.wf d → (k, v) ∈ d → PyDict.get k d = Some v.
Proof.
  unfold PyDict.wf, PyDict.keys. induction d as [|[k' v'] d IH]; simpl.
  - by intros _ ?%elem_of_nil.
  - intros [Hk' Hd]%NoDup_cons [Heq|Hin]%elem_of_cons.
    + injection Heq as -> ->. by rewrite decide_True.
    + case_decide as Hk; [|by apply IH].
      subst. exfalso. apply Hk'. apply list_elem_of_fmap. by exists (k', v).
Qed.

End dict_facts.

Section comprehension.
Context {K V W : Type} `{EqDecision K}.
Variable f : K → V → W.

(** Filling a dictionary from items whose keys are pairwise distinct and
    new appends one entry per item, in order. *)
Lemma foldl_set_fresh (l : list (K * V)) (acc : list (K * W)) :
  NoDup (PyDict.keys acc ++ PyDict.keys l) →
  foldl (λ a '(k, v), PyDict.set k (f k v) a) acc l
  = acc ++ ((λ '(k, v), (k, f k v)) <$> l).
Proof.
  revert acc. induction l as [|[k v] l IH]; intros acc Hnd; simpl.
  - by rewrite app_nil_r.
  - assert (k ∉ PyDict.keys acc) as Hk.
    { apply NoDup_app in Hnd as (_ & Hdisj & _). intros Hin.
      apply (Hdisj k Hin). simpl. apply list_elem_of_here. }
    rewrite set_fresh by done. rewrite IH.
    + by rewrite <- app_assoc.
    + unfold PyDict.keys in *. rewrite fmap_app. simpl. by rewrite <- app_assoc.
Qed.

Lemma foldl_set_wf (l : list (K * V)) (acc : list (K * W)) :
  PyDict.wf acc → PyDict.wf (foldl (λ a '(k, v), PyDict.set k (f k v) a) acc l).
Proof.
  revert acc. induction l as [|[k v] l IH]; intros acc Hacc; simpl; [done|].
  apply IH. by apply wf_set.
Qed.

End comprehension.

(** ** The monad *)

Section monad_facts.
Context {A B : Type}.
Implicit Types (m : M A) (k : A → M B).

Lemma bind_Ok_run m k σ a σ1 : m σ = (Ok a, σ1) → (m ≫= k) σ = k a σ1.
Proof. intros Hm. unfold mbind, M_bind, bind. by rewrite Hm. Qed.

Lemma bind_Raise_run m k σ e σ1 : m σ = (Raise e, σ1) → (m ≫= k) σ = (Raise e, σ1).
Proof. intros Hm. unfold mbind, M_bind, bind. by rewrite Hm. Qed.

Lemma bind_Ok_inv m k σ b σ' :
  (m ≫= k) σ = (Ok b, σ') → ∃ a σ1, m σ = (Ok a, σ1) ∧ k a σ1 = (Ok b, σ').
Proof.
  unfold mbind, M_bind, bind. destruct (m σ) as [[a|e] σ1]; [eauto|done].
Qed.

Lemma bind_Raise_inv m k σ e σ' :
  (m ≫= k) σ = (Raise e, σ') →
  m σ = (Raise e, σ') ∨ ∃ a σ1, m σ = (Ok a, σ1) ∧ k a σ1 = (Raise e, σ').
Proof.
  unfold mbind, M_bind, bind. destruct (m σ) as [[a|e'] σ1]; [eauto|].
  intros [= -> ->]. by left.
Qed.

End monad_facts.

Lemma State_eta σ : mkState (structs σ) (infos σ) (disk σ) = σ.
Proof. by destruct σ. Qed.

(** ** The I/O layer and the partition loop *)

Section io_facts.
Variable E : Env.
Implicit Types (σ : State) (c : io_call) (catalog : Catalog).

Lemma io_Ok_inv c σ u σ' :
  io E c σ = (Ok u, σ') →
  io_outcome E (disk σ) c = None ∧ σ' = mkState (structs σ) (infos σ) (disk σ ++ [c]).
Proof. unfold io. destruct (io_outcome E (disk σ) c); [done|]. by intros [= _ <-]. Qed.

Lemma io_Raise_inv c σ e σ' :
  io E c σ = (Raise e, σ') → io_outcome E (disk σ) c = Some e ∧ σ' = σ.
Proof. unfold io. destruct (io_outcome E (disk σ) c); [|done]. by intros [= -> <-]. Qed.

Lemma io_Ok_run c σ :
  io_outcome E (disk σ) c = None →
  io E c σ = (Ok tt, mkState (structs σ) (infos σ) (disk σ ++ [c])).
Proof. unfold io. by intros ->. Qed.

Lemma io_Raise_run c σ e : io_outcome E (disk σ) c = Some e → io E c σ = (Raise e, σ).
Proof. unfold io. by intros ->. Qed.

Lemma rows_of_Some catalog i df :
  _ddf catalog !! i = Some df → rows_of catalog i = Z.of_nat (length df).
Proof. unfold rows_of, partition_of. by intros ->. Qed.

Lemma tile_write_Some catalog fp so px i df :
  _ddf catalog !! i = Some df →
  tile_write E catalog fp so (px, i)
  = WriteDataframeToParquet df (pixel_catalog_file E fp (order px) (pixel px)) so.
Proof. intros Hdf. unfold tile_write, partition_of. cbn [fst snd]. by rewrite Hdf. Qed.

(** A loop that returns has found every partition and had every write
    accepted; it leaves the store alone and appends one write per item. *)
Lemma write_partitions_loop_Ok catalog fp so todo acc σ m σ' :
  write_partitions_loop E catalog fp so todo acc σ = (Ok m, σ') →
  indices_valid catalog todo ∧
  m = foldl (λ a '(px, i), PyDict.set px (rows_of catalog i) a) acc todo ∧
  σ' = mkState (structs σ) (infos σ) (disk σ ++ (tile_write E catalog fp so <$> todo)).
Proof.
  revert acc σ m σ'. induction todo as [|[px i] todo IH]; intros acc σ m σ'; simpl.
  - intros [= <- <-]. split_and!; [constructor|done|].
    by rewrite app_nil_r, State_eta.
  - unfold compute_partition.
    destruct (_ddf catalog !! i) as [df|] eqn:Hdf; [|done].
    intros (? & σ1 & [= <- <-] & Hrun)%bind_Ok_inv.
    apply bind_Ok_inv in Hrun as (u & σ2 & [Hio ->]%io_Ok_inv & Hrun).
    apply IH in Hrun as (Hvalid & -> & ->). simpl.
    split_and!.
    + constructor; [by exists df|done].
    + by rewrite (rows_of_Some _ _ _ Hdf).
    + rewrite (tile_write_Some _ _ _ _ _ _ Hdf). by rewrite <- app_assoc.
Qed.

(** A loop that raises stopped at one item: the writes of the items before
    it are on disk, nothing else was done, and the exception is the one
    the failing step produced. *)
Lemma write_partitions_loop_Raise catalog fp so todo acc σ e σ' :
  write_partitions_loop E catalog fp so todo acc σ = (Raise e, σ') →
  ∃ written px i rest,
    todo = written ++ (px, i) :: rest ∧
    indices_valid catalog written ∧
    σ' = mkState (structs σ) (infos σ) (disk σ ++ (tile_write E catalog fp so <$> written)) ∧
    match _ddf catalog !! i with
    | None => e = IndexError
    | Some df =>
        io_outcome E (disk σ')
          (WriteDataframeToParquet df (pixel_catalog_file E fp (order px) (pixel px)) so)
        = Some e
    end.
Proof.
  revert acc σ e σ'. induction todo as [|[px i] todo IH]; intros acc σ e σ'; simpl; [done|].
  unfold compute_partition.
  destruct (_ddf catalog !! i) as [df|] eqn:Hdf.
  - intros [Hr|(? & σ1 & [= <- <-] & Hrun)]%bind_Raise_inv; [done|].
    apply bind_Raise_inv in Hrun as [[Hio ->]%io_Raise_inv|(u & σ2 & [Hio ->]%io_Ok_inv & Hrun)].
    + exists [], px, i, todo. split_and!; [done|constructor| |].
      * simpl. by rewrite app_nil_r, State_eta.
      * by rewrite Hdf.
    + apply IH in Hrun as (written & px' & i' & rest & -> & Hvalid & -> & He).
      exists ((px, i) :: written), px', i', rest. simpl in *. split_and!.
      * done.
      * constructor; [by exists df|done].
      * rewrite (tile_write_Some _ _ _ _ _ _ Hdf). by rewrite <- app_assoc.
      * done.
  - intros [Hr|(? & σ1 & [=] & _)]%bind_Raise_inv.
    injection Hr as <- <-.
    exists [], px, i, todo. split_and!; [done|constructor| |].
    + simpl. by rewrite app_nil_r, State_eta.
    + by rewrite Hdf.
Qed.

End io_facts.

(** ** The store *)

Section store_facts.
Variable E : Env.
Implicit Types (σ : State) (s : HCCatalog) (i : CatalogInfo) (r : loc).

Lemma fresh_struct_None σ : structs σ !! fresh (dom (structs σ)) = None.
Proof. apply not_elem_of_dom, is_fresh. Qed.

Lemma fresh_info_None σ : infos σ !! fresh (dom (infos σ)) = None.
Proof. apply not_elem_of_dom, is_fresh. Qed.

(** What [create_modified_catalog_structure] computes, for every store:
    the copy is a new object, all assignments go to the copy, and the new
    [CatalogInfo] is a new object too. *)
Lemma create_modified_catalog_structure_eq r dir name kw σ :
  create_modified_catalog_structure E r dir name kw σ =
  match structs σ !! r with
  | None => (Raise DanglingReference, σ)
  | Some s =>
      let r' := fresh (dom (structs σ)) in
      let s' := mkHCCatalog (catalog_info s) name dir true
                  (get_file_pointer_from_path E dir)
                  (hc_storage_options s) (hc_partition_info s) in
      match infos σ !! catalog_info s with
      | None =>
          (Raise DanglingReference,
           mkState (<[r' := s']> (structs σ)) (infos σ) (disk σ))
      | Some i =>
          let ri' := fresh (dom (infos σ)) in
          (Ok r',
           mkState (<[r' := with_catalog_info ri' s']> (structs σ))
                   (<[ri' := replaced i name kw]> (infos σ)) (disk σ))
      end
  end.
Proof.
  unfold create_modified_catalog_structure, copy, dataclasses_replace.
  unfold mbind, M_bind, bind, getattr_hc at 1.
  destruct (structs σ !! r) as [s|] eqn:Hs; [|done].
  unfold new_hc, setattr_hc, getattr_hc, getattr_info, new_info, ret.
  unfold with_on_disk, with_catalog_base_dir, with_catalog_path, with_catalog_name.
  repeat first
    [ rewrite lookup_insert_eq | rewrite insert_insert_eq
    | progress cbn [structs infos disk catalog_info catalog_name catalog_path
                    on_disk catalog_base_dir hc_storage_options hc_partition_info] ].
  destruct (infos σ !! catalog_info s) as [i|] eqn:Hi; [|done].
  repeat first
    [ rewrite lookup_insert_eq | rewrite insert_insert_eq
    | progress cbn [structs infos disk] ].
  done.
Qed.

End store_facts.

(** ** The partition info dictionary *)

Lemma partition_info_fmap (m : dict HealpixPixel Z) :
  PyDict.wf m →
  _get_partition_info_dict m = (λ '(px, n), (px, (n, [pixel px]))) <$> m.
Proof.
  intros Hm. unfold _get_partition_info_dict, PyDict.items.
  rewrite (foldl_set_fresh (λ px n, (n, [pixel px])) m []); [done|].
  by rewrite app_nil_l.
Qed.

Lemma partition_info_keys (m : dict HealpixPixel Z) :
  PyDict.wf m → PyDict.keys (_get_partition_info_dict m) = PyDict.keys m.
Proof.
  intros Hm. rewrite partition_info_fmap by done. unfold PyDict.keys.
  rewrite <- list_fmap_compose. apply list_fmap_ext. by intros _ [px n] _.
Qed.

Lemma partition_info_counts (m : dict HealpixPixel Z) :
  PyDict.wf m → (PyDict.values (_get_partition_info_dict m)).*1 = PyDict.values m.
Proof.
  intros Hm. rewrite partition_info_fmap by done. unfold PyDict.values.
  rewrite <- !list_fmap_compose. apply list_fmap_ext. by intros _ [px n] _.
Qed.

Section export_facts.
Variable E : Env.
Implicit Types (σ : State) (s : HCCatalog) (i : CatalogInfo) (catalog : Catalog).

(** The row-count map is a well-formed dictionary whatever the pixel map. *)
Lemma write_partitions_wf catalog fp so σ m σ' :
  write_partitions E catalog fp so σ = (Ok m, σ') → PyDict.wf m.
Proof.
  intros (_ & -> & _)%write_partitions_loop_Ok.
  apply (foldl_set_wf (λ _ idx, rows_of catalog idx)), wf_nil.
Qed.

Lemma if_truthy_else_existing override r σ n σ' s :
  structs σ !! r = Some s →
  if_truthy_else override (s ← getattr_hc r; ret (catalog_name s)) σ = (Ok n, σ') →
  n = effective_name override s ∧ σ' = σ.
Proof.
  intros Hs. unfold if_truthy_else, effective_name.
  assert ((s ← getattr_hc r; ret (catalog_name s)) σ = (Ok (catalog_name s), σ)) as Hget.
  { unfold mbind, M_bind, bind, getattr_hc. by rewrite Hs. }
  destruct override as [n'|]; [case_decide|]; rewrite ?Hget; by intros [= <- <-].
Qed.

Lemma if_truthy_else_frame override r σ n σ' :
  if_truthy_else override (s ← getattr_hc r; ret (catalog_name s)) σ = (Ok n, σ') → σ' = σ.
Proof.
  assert ((s ← getattr_hc r; ret (catalog_name s)) σ = (Ok n, σ') → σ' = σ) as Hget.
  { unfold mbind, M_bind, bind, getattr_hc.
    destruct (structs σ !! r); [|done]. by intros [= _ <-]. }
  unfold if_truthy_else.
  destruct override as [n'|]; [case_decide|]; try done. by intros [= _ <-].
Qed.

(** An export that returns: the source structure and descriptor exist, the
    directory was made, the partition loop returned a row-count map [m],
    and the final state is the initial one with two new objects in the
    store and the six kinds of calls on the disk, in program order. *)
Lemma to_hipscat_Ok_inv catalog base override so σ σ' :
  to_hipscat E catalog base override so σ = (Ok tt, σ') →
  let fp := get_file_pointer_from_path E base in
  ∃ s i m σ1 σ2,
    structs σ !! hc_structure catalog = Some s ∧
    infos σ !! catalog_info s = Some i ∧
    io E (MakeDirectory fp) σ = (Ok tt, σ1) ∧
    write_partitions E catalog fp so σ1 = (Ok m, σ2) ∧
    let name := effective_name override s in
    let info' := replaced i name (total_rows_kwarg (sum (PyDict.values m))) in
    let r' := fresh (dom (structs σ)) in
    let ri' := fresh (dom (infos σ)) in
    σ' = mkState
           (<[r' := mkHCCatalog ri' name base true fp
                      (hc_storage_options s) (hc_partition_info s)]> (structs σ))
           (<[ri' := info']> (infos σ))
           (disk σ2 ++
            [ WriteParquetMetadata base so;
              WritePartitionInfo fp (_get_partition_info_dict m) so;
              WriteCatalogInfo base info' so;
              WriteProvenanceInfo fp info'
                (mkProvenanceInfo "lsdb" (version E "lsdb")
                   [ ("catalog_name", name); ("output_path", base);
                     ("output_catalog_name", name); ("catalog_path", base);
                     ("epoch", ci_epoch i); ("catalog_type", ci_catalog_type i);
                     ("ra_column", ci_ra_column i); ("dec_column", ci_dec_column i) ])
                so ]).
Proof.
  intros Hrun fp. unfold to_hipscat in Hrun. fold fp in Hrun.
  apply bind_Ok_inv in Hrun as ([] & σ1 & Hmk & Hrun).
  apply bind_Ok_inv in Hrun as (m & σ2 & Hwp & Hrun).
  pose proof (write_partitions_wf _ _ _ _ _ _ Hwp) as Hwf.
  pose proof Hmk as [_ Hσ1]%io_Ok_inv.
  pose proof Hwp as (_ & _ & Hσ2)%write_partitions_loop_Ok.
  apply bind_Ok_inv in Hrun as ([] & σ3 & [_ Hσ3]%io_Ok_inv & Hrun).
  apply bind_Ok_inv in Hrun as ([] & σ4 & [_ Hσ4]%io_Ok_inv & Hrun).
  apply bind_Ok_inv in Hrun as (name & σ5 & Hname & Hrun).
  pose proof Hname as ->%if_truthy_else_frame.
  assert (structs σ4 = structs σ ∧ infos σ4 = infos σ) as [Hst Hin].
  { by rewrite Hσ4, Hσ3, Hσ2, Hσ1. }
  apply bind_Ok_inv in Hrun as (r' & σ6 & Hmod & Hrun).
  rewrite create_modified_catalog_structure_eq, Hst, Hin in Hmod.
  destruct (structs σ !! hc_structure catalog) as [s|] eqn:Hs; [|done].
  destruct (infos σ !! catalog_info s) as [i|] eqn:Hi; [|done].
  assert (structs σ4 !! hc_structure catalog = Some s) as Hs4 by (by rewrite Hst).
  apply (if_truthy_else_existing _ _ _ _ _ _ Hs4) in Hname as [-> _].
  injection Hmod as <- <-.
  rewrite partition_info_counts in Hrun by done.
  exists s, i, m, σ1, σ2. split_and!; [done..|].
  revert Hrun. unfold _get_provenance_info, with_catalog_info.
  unfold mbind, M_bind, bind, getattr_hc, getattr_info, ret, io.
  repeat first
    [ rewrite lookup_insert_eq
    | progress cbn [structs infos disk catalog_info catalog_name catalog_path
                    on_disk catalog_base_dir hc_storage_options hc_partition_info
                    ci_epoch ci_catalog_type ci_ra_column ci_dec_column] ].
  destruct (io_outcome E _ (WriteCatalogInfo _ _ _)); [done|].
  cbn [structs infos disk].
  repeat first
    [ rewrite lookup_insert_eq
    | progress cbn [structs infos disk catalog_info catalog_name catalog_path
                    on_disk catalog_base_dir hc_storage_options hc_partition_info
                    ci_epoch ci_catalog_type ci_ra_column ci_dec_column] ].
  destruct (io_outcome E _ (WriteProvenanceInfo _ _ _ _)); [done|].
  intros [= <-]. rewrite Hσ4, Hσ3. cbn [structs infos disk].
  by rewrite <- !app_assoc.
Qed.

End export_facts.

(** ** Reading the log *)

Section log_facts.
Variable E : Env.
Implicit Types (σ : State) (catalog : Catalog) (log : list io_call).

Lemma new_calls_app σ σ' log : disk σ' = disk σ ++ log → new_calls σ σ' = log.
Proof. unfold new_calls. intros ->. apply drop_app_length. Qed.

Lemma catalog_infos_written_app log1 log2 :
  catalog_infos_written (log1 ++ log2)
  = catalog_infos_written log1 ++ catalog_infos_written log2.
Proof. apply omap_app. Qed.

Lemma provenance_written_app log1 log2 :
  provenance_written (log1 ++ log2) = provenance_written log1 ++ provenance_written log2.
Proof. apply omap_app. Qed.

Lemma data_files_written_app log1 log2 :
  data_files_written (log1 ++ log2) = data_files_written log1 ++ data_files_written log2.
Proof. apply omap_app. Qed.

Lemma catalog_infos_written_tiles catalog fp so todo :
  catalog_infos_written (tile_write E catalog fp so <$> todo) = [].
Proof. by induction todo. Qed.

Lemma provenance_written_tiles catalog fp so todo :
  provenance_written (tile_write E catalog fp so <$> todo) = [].
Proof. by induction todo. Qed.

Lemma data_files_written_tiles catalog fp so todo :
  data_files_written (tile_write E catalog fp so <$> todo)
  = (λ item, pixel_catalog_file E fp (order item.1) (pixel item.1)) <$> todo.
Proof. induction todo as [|x todo IH]; [done|]. cbn. by f_equal. Qed.

(** With pairwise distinct tile keys the loop appends every entry. *)
Lemma write_partitions_fmap catalog fp so σ m σ' :
  PyDict.wf (_ddf_pixel_map catalog) →
  write_partitions E catalog fp so σ = (Ok m, σ') →
  m = (λ '(px, idx), (px, rows_of catalog idx)) <$> _ddf_pixel_map catalog.
Proof.
  intros Hwf (_ & -> & _)%write_partitions_loop_Ok. unfold PyDict.items.
  rewrite (foldl_set_fresh (λ _ idx, rows_of catalog idx)); [done|].
  by rewrite app_nil_l.
Qed.

End log_facts.

(** ** Runs that return

    With every object in the store, every tile on a partition and an I/O
    layer that accepts every call, the loop and the export return. *)

Section returns.
Variable E : Env.
Hypothesis io_accepts : ∀ log c, io_outcome E log c = None.
Implicit Types (σ : State) (s : HCCatalog) (i : CatalogInfo) (catalog : Catalog).

Lemma write_partitions_loop_returns catalog fp so todo acc σ :
  indices_valid catalog todo →
  ∃ m, write_partitions_loop E catalog fp so todo acc σ
       = (Ok m, mkState (structs σ) (infos σ)
                  (disk σ ++ (tile_write E catalog fp so <$> todo))).
Proof.
  revert acc σ. induction todo as [|[px idx] todo IH]; intros acc σ Hvalid.
  - exists acc. simpl. by rewrite app_nil_r, State_eta.
  - apply Forall_cons in Hvalid as [[df Hdf] Hvalid]. simpl in Hdf.
    cbn [write_partitions_loop]. unfold compute_partition. rewrite Hdf.
    rewrite (bind_Ok_run _ _ σ df σ) by done. unfold write_dataframe_to_parquet.
    rewrite (bind_Ok_run _ _ _ _ _ (io_Ok_run E _ σ (io_accepts _ _))).
    destruct (IH (PyDict.set px (Z.of_nat (length df)) acc)
                (mkState (structs σ) (infos σ)
                   (disk σ ++ [WriteDataframeToParquet df
                                 (pixel_catalog_file E fp (order px) (pixel px)) so]))
                Hvalid) as [m Hm].
    exists m. rewrite Hm. cbn [structs infos disk fmap list_fmap].
    rewrite (tile_write_Some E _ _ _ _ _ _ Hdf). by rewrite <- app_assoc.
Qed.

Lemma to_hipscat_returns catalog base override so σ s i :
  structs σ !! hc_structure catalog = Some s →
  infos σ !! catalog_info s = Some i →
  indices_valid catalog (PyDict.items (_ddf_pixel_map catalog)) →
  ∃ σ', to_hipscat E catalog base override so σ = (Ok tt, σ').
Proof.
  intros Hs Hi Hvalid. unfold to_hipscat.
  rewrite (bind_Ok_run _ _ _ _ _ (io_Ok_run E _ σ (io_accepts _ _))).
  unfold write_partitions.
  edestruct (write_partitions_loop_returns catalog) as [m Hm]; [exact Hvalid|].
  rewrite (bind_Ok_run _ _ _ _ _ Hm).
  rewrite (bind_Ok_run _ _ _ _ _ (io_Ok_run E _ _ (io_accepts _ _))).
  rewrite (bind_Ok_run _ _ _ _ _ (io_Ok_run E _ _ (io_accepts _ _))).
  cbn [structs infos disk].
  match goal with |- ∃ _, (_ ≫= _) ?σ0 = _ => set (σ4 := σ0) end.
  assert (if_truthy_else override
            (s0 ← getattr_hc (hc_structure catalog); ret (catalog_name s0)) σ4
          = (Ok (effective_name override s), σ4)) as Hname.
  { unfold if_truthy_else, effective_name.
    assert ((s0 ← getattr_hc (hc_structure catalog); ret (catalog_name s0)) σ4
            = (Ok (catalog_name s), σ4)) as Hget.
    { unfold mbind, M_bind, bind, getattr_hc. subst σ4. cbn [structs]. by rewrite Hs. }
    destruct override as [n|]; [case_decide|]; done. }
  rewrite (bind_Ok_run _ _ _ _ _ Hname).
  unfold mbind at 1, M_bind at 1, bind at 1.
  rewrite create_modified_catalog_structure_eq. subst σ4. cbn [structs infos disk].
  rewrite Hs. cbv zeta. rewrite Hi.
  unfold _get_provenance_info, with_catalog_info.
  unfold mbind, M_bind, bind, getattr_hc, getattr_info, ret, io.
  repeat first
    [ rewrite lookup_insert_eq | rewrite io_accepts
    | progress cbn [structs infos disk catalog_info catalog_name catalog_path
                    on_disk catalog_base_dir hc_storage_options hc_partition_info] ].
  by eexists.
Qed.

End returns.

Section export_log.
Variable E : Env.
Implicit Types (σ : State) (s : HCCatalog) (i : CatalogInfo) (catalog : Catalog).

(** The calls of an export that returns, and the two objects it creates. *)
Lemma to_hipscat_Ok_log catalog base override so σ σ' :
  to_hipscat E catalog base override so σ = (Ok tt, σ') →
  let fp := get_file_pointer_from_path E base in
  ∃ s i m σ1 σ2,
    structs σ !! hc_structure catalog = Some s ∧
    infos σ !! catalog_info s = Some i ∧
    io E (MakeDirectory fp) σ = (Ok tt, σ1) ∧
    write_partitions E catalog fp so σ1 = (Ok m, σ2) ∧
    let name := effective_name override s in
    let info' := replaced i name (total_rows_kwarg (sum (PyDict.values m))) in
    structs σ' = <[fresh (dom (structs σ)) :=
                     mkHCCatalog (fresh (dom (infos σ))) name base true fp
                       (hc_storage_options s) (hc_partition_info s)]> (structs σ) ∧
    infos σ' = <[fresh (dom (infos σ)) := info']> (infos σ) ∧
    new_calls σ σ' =
      [MakeDirectory fp] ++
      (tile_write E catalog fp so <$> PyDict.items (_ddf_pixel_map catalog)) ++
      [ WriteParquetMetadata base so;
        WritePartitionInfo fp (_get_partition_info_dict m) so;
        WriteCatalogInfo base info' so;
        WriteProvenanceInfo fp info'
          (mkProvenanceInfo "lsdb" (version E "lsdb")
             [ ("catalog_name", name); ("output_path", base);
               ("output_catalog_name", name); ("catalog_path", base);
               ("epoch", ci_epoch i); ("catalog_type", ci_catalog_type i);
               ("ra_column", ci_ra_column i); ("dec_column", ci_dec_column i) ])
          so ].
Proof.
  intros (s & i & m & σ1 & σ2 & Hs & Hi & Hmk & Hwp & ->)%to_hipscat_Ok_inv fp.
  exists s, i, m, σ1, σ2.
  do 4 (split; [done|]). cbv zeta. do 2 (split; [done|]).
  apply io_Ok_inv in Hmk as [_ Hσ1].
  apply write_partitions_loop_Ok in Hwp as (_ & _ & Hσ2).
  apply new_calls_app. cbn [disk]. rewrite Hσ2, Hσ1. cbn [disk].
  by rewrite <- !app_assoc.
Qed.

(** The descriptor an export that returns has written. *)
Lemma to_hipscat_Ok_descriptor catalog base override so σ σ' :
  to_hipscat E catalog base override so σ = (Ok tt, σ') →
  ∃ s i m σ1 σ2,
    structs σ !! hc_structure catalog = Some s ∧
    infos σ !! catalog_info s = Some i ∧
    io E (MakeDirectory (get_file_pointer_from_path E base)) σ = (Ok tt, σ1) ∧
    write_partitions E catalog (get_file_pointer_from_path E base) so σ1 = (Ok m, σ2) ∧
    catalog_infos_written (new_calls σ σ')
    = [replaced i (effective_name override s) (total_rows_kwarg (sum (PyDict.values m)))].
Proof.
  intros (s & i & m & σ1 & σ2 & Hs & Hi & Hmk & Hwp & _ & _ & ->)%to_hipscat_Ok_log.
  exists s, i, m, σ1, σ2. split_and!; [done..|].
  by rewrite !catalog_infos_written_app, catalog_infos_written_tiles.
Qed.

End export_log.

(** ** A write that is refused *)

Section refused_write.
Variable E : Env.
Implicit Types (σ : State) (catalog : Catalog).


End refused_write.

(** ** The claims *)

Section claims.
Variable E : Env.
Implicit Types (σ : State) (s : HCCatalog) (i : CatalogInfo) (catalog : Catalog).

(** C1.  An export that returns has written exactly one descriptor with
    [write_catalog_info], and its total row count is the sum of the row
    counts in the map returned by the partition-writing step of that run.
    When the tile keys of the catalog are pairwise distinct, this is the sum
    of the lengths of the partitions the tiles are mapped to. *)
Theorem to_hipscat_total_rows catalog base override so σ σ' :
  to_hipscat E catalog base override so σ = (Ok tt, σ') →
  ∃ m σ1 σ2,
    io E (MakeDirectory (get_file_pointer_from_path E base)) σ = (Ok tt, σ1) ∧
    write_partitions E catalog (get_file_pointer_from_path E base) so σ1 = (Ok m, σ2) ∧
    ci_total_rows <$> catalog_infos_written (new_calls σ σ') = [sum (PyDict.values m)] ∧
    (PyDict.wf (_ddf_pixel_map catalog) →
     sum (PyDict.values m) = sum ((λ item, rows_of catalog item.2) <$> _ddf_pixel_map catalog)).
Proof.
  intros (s & i & m & σ1 & σ2 & Hs & Hi & Hmk & Hwp & ->)%to_hipscat_Ok_inv.
  exists m, σ1, σ2. split_and!; [done..| |].
  - pose proof Hmk as [_ Hσ1]%io_Ok_inv.
    pose proof Hwp as (_ & _ & Hσ2)%write_partitions_loop_Ok.
    erewrite new_calls_app.
    2:{ cbn [disk]. rewrite Hσ2, Hσ1. cbn [disk]. by rewrite <- !app_assoc. }
    rewrite !catalog_infos_written_app, catalog_infos_written_tiles. done.
  - intros Hwf. rewrite (write_partitions_fmap _ _ _ _ _ _ _ Hwf Hwp).
    unfold PyDict.values. rewrite <- list_fmap_compose.
    f_equal. apply list_fmap_ext. by intros _ [px idx] _.
Qed.

(** C2.  A partition-writing step that returns, on a catalog whose tile keys
    are pairwise distinct, has issued one write per item of the pixel map,
    in order, each with the partition of that item (empty or not) and the
    path of its tile; and the row-count map has the keys of the pixel map,
    each with the length of its partition. *)
Theorem write_partitions_one_file_per_tile catalog fp so σ m σ' :
  PyDict.wf (_ddf_pixel_map catalog) →
  write_partitions E catalog fp so σ = (Ok m, σ') →
  Forall2
    (λ item c, ∃ df, _ddf catalog !! item.2 = Some df ∧
       c = WriteDataframeToParquet df
             (pixel_catalog_file E fp (order item.1) (pixel item.1)) so)
    (PyDict.items (_ddf_pixel_map catalog)) (new_calls σ σ') ∧
  length (data_files_written (new_calls σ σ')) = length (PyDict.keys (_ddf_pixel_map catalog)) ∧
  PyDict.keys m = PyDict.keys (_ddf_pixel_map catalog) ∧
  ∀ px idx, (px, idx) ∈ PyDict.items (_ddf_pixel_map catalog) →
    PyDict.get px m = Some (rows_of catalog idx).
Proof.
  intros Hwf Hwp.
  pose proof (write_partitions_fmap _ _ _ _ _ _ _ Hwf Hwp) as Hm.
  pose proof Hwp as (Hvalid & _ & Hσ')%write_partitions_loop_Ok.
  rewrite (new_calls_app σ σ' (tile_write E catalog fp so <$> PyDict.items (_ddf_pixel_map catalog)))
    by (by rewrite Hσ').
  assert (PyDict.keys m = PyDict.keys (_ddf_pixel_map catalog)) as Hkeys.
  { rewrite Hm. unfold PyDict.keys. rewrite <- list_fmap_compose.
    apply list_fmap_ext. by intros _ [px idx] _. }
  split_and!.
  - apply Forall2_fmap_r, Forall_Forall2_diag.
    eapply Forall_impl; [exact Hvalid|]. intros [px idx] [df Hdf].
    exists df. split; [done|]. by apply tile_write_Some.
  - rewrite data_files_written_tiles. unfold PyDict.keys, PyDict.items.
    by rewrite !length_fmap.
  - done.
  - intros px idx Hin. apply elem_get_Some.
    + unfold PyDict.wf. by rewrite Hkeys.
    + rewrite Hm. apply list_elem_of_fmap. by exists (px, idx).
Qed.

(** C3.  For a row-count dictionary, the partition info dictionary has the
    same keys, and the entry of a key is its row count paired with the
    one-element list holding the key's own pixel number. *)
Theorem partition_info_entry (m : dict HealpixPixel Z) px n :
  PyDict.wf m →
  PyDict.get px m = Some n →
  PyDict.get px (_get_partition_info_dict m) = Some (n, [pixel px]) ∧
  PyDict.keys (_get_partition_info_dict m) = PyDict.keys m.
Proof.
  intros Hwf Hget. split; [|by apply partition_info_keys].
  apply elem_get_Some.
  - unfold PyDict.wf. by rewrite partition_info_keys.
  - rewrite partition_info_fmap by done.
    apply list_elem_of_fmap. exists (px, n). split; [done|].
    by apply get_Some_elem.
Qed.

(** C4.  An export that returns leaves in the store a new structure and a
    new descriptor, the one it wrote with [write_catalog_info].  In the
    structure the name, the path, the base-directory pointer and the
    on-disk flag are the new ones; in the descriptor the name is the new one
    and the total row count is the sum of the row counts in the map the
    partition-writing step of that run returned; the other attributes of
    both are those of the source.  Another override on the same input
    changes the name of the written descriptor and no other field of it. *)
Theorem to_hipscat_descriptor_frame catalog base override so σ σ' :
  to_hipscat E catalog base override so σ = (Ok tt, σ') →
  ∃ s i s' i' m σ1 σ2,
    structs σ !! hc_structure catalog = Some s ∧
    infos σ !! catalog_info s = Some i ∧
    io E (MakeDirectory (get_file_pointer_from_path E base)) σ = (Ok tt, σ1) ∧
    write_partitions E catalog (get_file_pointer_from_path E base) so σ1 = (Ok m, σ2) ∧
    structs σ' !! fresh (dom (structs σ)) = Some s' ∧
    infos σ' !! catalog_info s' = Some i' ∧
    catalog_infos_written (new_calls σ σ') = [i'] ∧
    s' = mkHCCatalog (catalog_info s') (effective_name override s) base true
           (get_file_pointer_from_path E base)
           (hc_storage_options s) (hc_partition_info s) ∧
    i' = mkCatalogInfo (effective_name override s) (ci_catalog_type i)
           (sum (PyDict.values m))
           (ci_epoch i) (ci_ra_column i) (ci_dec_column i) ∧
    ∀ override2 σ2',
      to_hipscat E catalog base override2 so σ = (Ok tt, σ2') →
      ∃ i2', catalog_infos_written (new_calls σ σ2') = [i2'] ∧ same_but_name i' i2'.
Proof.
  intros Hrun.
  pose proof Hrun as (s & i & m & σ1 & σ2 & Hs & Hi & Hmk & Hwp & Hst & Hin & _)%to_hipscat_Ok_log.
  apply to_hipscat_Ok_descriptor in Hrun as (s0 & i0 & m0 & τ1 & τ2 & Hs0 & Hi0 & Hmk0 & Hwp0 & Hlog).
  rewrite Hs in Hs0. injection Hs0 as <-. rewrite Hi in Hi0. injection Hi0 as <-.
  rewrite Hmk in Hmk0. injection Hmk0 as <-.
  rewrite Hwp in Hwp0. injection Hwp0 as <- <-.
  eexists s, i, _, _, m, σ1, σ2.
  split_and!; [done|done|exact Hmk|exact Hwp| | |exact Hlog| | |].
  - rewrite Hst. apply lookup_insert_eq.
  - rewrite Hin. cbn [catalog_info]. apply lookup_insert_eq.
  - done.
  - done.
  - intros override2 σ2' (s2 & i2 & m2 & υ1 & υ2 & Hs2 & Hi2 & Hmk2 & Hwp2 & Hlog2)%to_hipscat_Ok_descriptor.
    rewrite Hs in Hs2. injection Hs2 as <-. rewrite Hi in Hi2. injection Hi2 as <-.
    rewrite Hmk in Hmk2. injection Hmk2 as <-.
    rewrite Hwp in Hwp2. injection Hwp2 as <- <-.
    eexists. split; [exact Hlog2|]. by repeat split.
Qed.

(** C5.  [create_modified_catalog_structure] updates no object of the
    store in place: whatever it returns, the structure it was given and the
    descriptor that structure points to, like every other object present
    before the call, have all their attributes unchanged; a structure it
    returns is an object that did not exist before. *)
Theorem create_modified_catalog_structure_preserves_source
    (r : loc) dir name kw σ s i res σ' :
  structs σ !! r = Some s →
  infos σ !! catalog_info s = Some i →
  create_modified_catalog_structure E r dir name kw σ = (res, σ') →
  structs σ' !! r = Some s ∧
  infos σ' !! catalog_info s = Some i ∧
  structs σ ⊆ structs σ' ∧
  infos σ ⊆ infos σ' ∧
  ∃ r' : loc, res = Ok r' ∧ r' ≠ r ∧ structs σ !! r' = None.
Proof.
  intros Hs Hi. rewrite create_modified_catalog_structure_eq, Hs.
  cbv zeta. rewrite Hi. intros [= <- <-]. cbn [structs infos].
  pose proof (fresh_struct_None σ) as Hr'. pose proof (fresh_info_None σ) as Hi'.
  assert (fresh (dom (structs σ)) ≠ r) as Hne by congruence.
  assert (fresh (dom (infos σ)) ≠ catalog_info s) as Hnei by congruence.
  split_and!.
  - by rewrite lookup_insert_ne.
  - by rewrite lookup_insert_ne.
  - by apply insert_subseteq.
  - by apply insert_subseteq.
  - by eexists.
Qed.


(** C7.  When making the destination directory raises, the export raises
    the same exception at once: the state is the one it started from, so no
    data file was written in that run. *)
Theorem to_hipscat_directory_failure catalog base override so σ e res σ' :
  io_outcome E (disk σ) (MakeDirectory (get_file_pointer_from_path E base)) = Some e →
  to_hipscat E catalog base override so σ = (res, σ') →
  res = Raise e ∧ σ' = σ ∧ data_files_written (new_calls σ σ') = [].
Proof.
  intros Hfail. unfold to_hipscat.
  rewrite (bind_Raise_run _ _ _ _ _ (io_Raise_run E _ _ _ Hfail)).
  intros [= <- <-]. split_and!; [done..|].
  unfold new_calls. by rewrite drop_all.
Qed.

(** C8.  The tool arguments an export that returns has written with
    [write_provenance_info]: the tool name is [lsdb], the version is the one
    looked up for [lsdb], and the runtime arguments are, under eight keys,
    the name the catalog is exported under, the output path, and the epoch,
    the catalog type and the two coordinate columns of the source. *)
Theorem to_hipscat_provenance catalog base override so σ σ' :
  to_hipscat E catalog base override so σ = (Ok tt, σ') →
  ∃ s i p,
    structs σ !! hc_structure catalog = Some s ∧
    infos σ !! catalog_info s = Some i ∧
    provenance_written (new_calls σ σ') = [p] ∧
    tool_name p = "lsdb" ∧
    version_ p = version E "lsdb" ∧
    PyDict.keys (runtime_args p)
    = [ "catalog_name"; "output_path"; "output_catalog_name"; "catalog_path";
        "epoch"; "catalog_type"; "ra_column"; "dec_column" ] ∧
    PyDict.get "catalog_name" (runtime_args p) = Some (effective_name override s) ∧
    PyDict.get "output_catalog_name" (runtime_args p) = Some (effective_name override s) ∧
    PyDict.get "output_path" (runtime_args p) = Some base ∧
    PyDict.get "catalog_path" (runtime_args p) = Some base ∧
    PyDict.get "ra_column" (runtime_args p) = Some (ci_ra_column i) ∧
    PyDict.get "dec_column" (runtime_args p) = Some (ci_dec_column i) ∧
    PyDict.get "catalog_type" (runtime_args p) = Some (ci_catalog_type i) ∧
    PyDict.get "epoch" (runtime_args p) = Some (ci_epoch i).
Proof.
  intros (s & i & m & σ1 & σ2 & Hs & Hi & _ & _ & _ & _ & ->)%to_hipscat_Ok_log.
  eexists s, i, _.
  split_and!;
    [done|done|by rewrite !provenance_written_app, provenance_written_tiles|reflexivity..].
Qed.

(** C9 (as the code has it).  The name in the descriptor an export that
    returns has written is the name of the source structure when no
    override is given, and the override when one is given that is not the
    empty string. *)
Theorem to_hipscat_name_written catalog base override so σ σ' :
  to_hipscat E catalog base override so σ = (Ok tt, σ') →
  ∃ s,
    structs σ !! hc_structure catalog = Some s ∧
    (override = None →
     ci_catalog_name <$> catalog_infos_written (new_calls σ σ') = [catalog_name s]) ∧
    (∀ n, override = Some n → n ≠ "" →
     ci_catalog_name <$> catalog_infos_written (new_calls σ σ') = [n]).
Proof.
  intros (s & i & m & σ1 & σ2 & Hs & _ & _ & _ & ->)%to_hipscat_Ok_descriptor.
  exists s. split_and!; [done| |].
  - by intros ->.
  - intros n -> Hn. cbn. by rewrite decide_False.
Qed.

(** C10.  The empty string as override is the same as no override: the two
    exports are the same computation, and when it returns the name in the
    written descriptor and the two name arguments of the written provenance
    are the name of the source structure. *)
Theorem to_hipscat_empty_override catalog base so σ :
  to_hipscat E catalog base (Some "") so σ = to_hipscat E catalog base None so σ ∧
  ∀ σ', to_hipscat E catalog base (Some "") so σ = (Ok tt, σ') →
    ∃ s, structs σ !! hc_structure catalog = Some s ∧
      ci_catalog_name <$> catalog_infos_written (new_calls σ σ') = [catalog_name s] ∧
      (λ p, (PyDict.get "catalog_name" (runtime_args p),
              PyDict.get "output_catalog_name" (runtime_args p)))
        <$> provenance_written (new_calls σ σ')
      = [(Some (catalog_name s), Some (catalog_name s))].
Proof.
  split; [done|].
  intros σ' (s & i & m & σ1 & σ2 & Hs & Hi & _ & _ & _ & _ & ->)%to_hipscat_Ok_log.
  exists s. split_and!; [done| |].
  - by rewrite !catalog_infos_written_app, catalog_infos_written_tiles.
  - by rewrite !provenance_written_app, provenance_written_tiles.
Qed.

End claims.

(** ** The claims on the small sky *)

Lemma to_hipscat_total_rows_witness :
  to_hipscat Demo.env_ok Demo.small_sky "/out" None None Demo.store
  = (Ok tt, Demo.exported None) ∧
  ∃ m σ1 σ2,
    io Demo.env_ok (MakeDirectory (get_file_pointer_from_path Demo.env_ok "/out")) Demo.store
    = (Ok tt, σ1) ∧
    write_partitions Demo.env_ok Demo.small_sky
      (get_file_pointer_from_path Demo.env_ok "/out") None σ1 = (Ok m, σ2) ∧
    ci_total_rows <$> catalog_infos_written (new_calls Demo.store (Demo.exported None))
    = [sum (PyDict.values m)] ∧
    (PyDict.wf (_ddf_pixel_map Demo.small_sky) →
     sum (PyDict.values m)
     = sum ((λ item, rows_of Demo.small_sky item.2) <$> _ddf_pixel_map Demo.small_sky)).
Proof.
  assert (to_hipscat Demo.env_ok Demo.small_sky "/out" None None Demo.store
          = (Ok tt, Demo.exported None)) as Hrun by (vm_compute; reflexivity).
  split; [exact Hrun|].
  exact (to_hipscat_total_rows Demo.env_ok Demo.small_sky "/out" None None
           Demo.store (Demo.exported None) Hrun).
Defined.

(** Partitions of 5 and 7 rows: the descriptor written says 12. *)
Example small_sky_total_rows :
  ci_total_rows <$> catalog_infos_written (new_calls Demo.store (Demo.exported None))
  = [12%Z].
Proof. by vm_compute. Qed.

Lemma sparse_sky_wf : PyDict.wf (_ddf_pixel_map Demo.sparse_sky).
Proof. apply (bool_decide_unpack _). by vm_compute. Defined.

Lemma write_partitions_one_file_per_tile_witness :
  PyDict.wf (_ddf_pixel_map Demo.sparse_sky) ∧
  write_partitions Demo.env_ok Demo.sparse_sky "/out" None Demo.store
  = (Ok Demo.sparse_counts, Demo.sparse_written) ∧
  Forall2
    (λ item c, ∃ df, _ddf Demo.sparse_sky !! item.2 = Some df ∧
       c = WriteDataframeToParquet df
             (pixel_catalog_file Demo.env_ok "/out" (order item.1) (pixel item.1)) None)
    (PyDict.items (_ddf_pixel_map Demo.sparse_sky))
    (new_calls Demo.store Demo.sparse_written) ∧
  length (data_files_written (new_calls Demo.store Demo.sparse_written))
  = length (PyDict.keys (_ddf_pixel_map Demo.sparse_sky)) ∧
  PyDict.keys Demo.sparse_counts = PyDict.keys (_ddf_pixel_map Demo.sparse_sky) ∧
  ∀ px idx, (px, idx) ∈ PyDict.items (_ddf_pixel_map Demo.sparse_sky) →
    PyDict.get px Demo.sparse_counts = Some (rows_of Demo.sparse_sky idx).
Proof.
  assert (write_partitions Demo.env_ok Demo.sparse_sky "/out" None Demo.store
          = (Ok Demo.sparse_counts, Demo.sparse_written)) as Hrun
    by (vm_compute; reflexivity).
  split; [exact sparse_sky_wf|]. split; [exact Hrun|].
  exact (write_partitions_one_file_per_tile Demo.env_ok Demo.sparse_sky "/out" None
           Demo.store Demo.sparse_counts Demo.sparse_written sparse_sky_wf Hrun).
Defined.

(** The empty partition of pixel 3 has its data file like the other. *)
Example sparse_sky_data_files :
  data_files_written (new_calls Demo.store Demo.sparse_written)
  = [ "/out/Norder=1/Dir=0/Npix=3.parquet"; "/out/Norder=1/Dir=0/Npix=4.parquet" ].
Proof. by vm_compute. Qed.

Lemma partition_info_entry_witness :
  PyDict.wf [(mkHealpixPixel 1 3, 5%Z)] ∧
  PyDict.get (mkHealpixPixel 1 3) [(mkHealpixPixel 1 3, 5%Z)] = Some 5%Z ∧
  PyDict.get (mkHealpixPixel 1 3) (_get_partition_info_dict [(mkHealpixPixel 1 3, 5%Z)])
  = Some (5%Z, [pixel (mkHealpixPixel 1 3)]) ∧
  PyDict.keys (_get_partition_info_dict [(mkHealpixPixel 1 3, 5%Z)])
  = PyDict.keys [(mkHealpixPixel 1 3, 5%Z)].
Proof.
  assert (PyDict.wf [(mkHealpixPixel 1 3, 5%Z)]) as Hwf
    by (apply (bool_decide_unpack _); vm_compute; exact I).
  split; [exact Hwf|]. split; [reflexivity|].
  exact (partition_info_entry [(mkHealpixPixel 1 3, 5%Z)] (mkHealpixPixel 1 3) 5%Z
           Hwf eq_refl).
Defined.

(** The entry of tile (order 1, pixel 3) has destination list [3]. *)
Example partition_info_order1_pixel3 :
  snd <$> PyDict.get (mkHealpixPixel 1 3)
            (_get_partition_info_dict [(mkHealpixPixel 1 3, 5%Z); (mkHealpixPixel 1 4, 7%Z)])
  = Some [3%Z].
Proof. reflexivity. Qed.

Lemma to_hipscat_descriptor_frame_witness :
  to_hipscat Demo.env_ok Demo.small_sky "/out" (Some "renamed") None Demo.store
  = (Ok tt, Demo.exported (Some "renamed")) ∧
  ∃ s i s' i' m σ1 σ2,
    structs Demo.store !! hc_structure Demo.small_sky = Some s ∧
    infos Demo.store !! catalog_info s = Some i ∧
    io Demo.env_ok (MakeDirectory (get_file_pointer_from_path Demo.env_ok "/out")) Demo.store
    = (Ok tt, σ1) ∧
    write_partitions Demo.env_ok Demo.small_sky
      (get_file_pointer_from_path Demo.env_ok "/out") None σ1 = (Ok m, σ2) ∧
    structs (Demo.exported (Some "renamed")) !! fresh (dom (structs Demo.store)) = Some s' ∧
    infos (Demo.exported (Some "renamed")) !! catalog_info s' = Some i' ∧
    catalog_infos_written (new_calls Demo.store (Demo.exported (Some "renamed"))) = [i'] ∧
    s' = mkHCCatalog (catalog_info s') (effective_name (Some "renamed") s) "/out" true
           (get_file_pointer_from_path Demo.env_ok "/out")
           (hc_storage_options s) (hc_partition_info s) ∧
    i' = mkCatalogInfo (effective_name (Some "renamed") s) (ci_catalog_type i)
           (sum (PyDict.values m))
           (ci_epoch i) (ci_ra_column i) (ci_dec_column i) ∧
    ∀ override2 σ2',
      to_hipscat Demo.env_ok Demo.small_sky "/out" override2 None Demo.store = (Ok tt, σ2') →
      ∃ i2', catalog_infos_written (new_calls Demo.store σ2') = [i2'] ∧ same_but_name i' i2'.
Proof.
  assert (to_hipscat Demo.env_ok Demo.small_sky "/out" (Some "renamed") None Demo.store
          = (Ok tt, Demo.exported (Some "renamed"))) as Hrun by (vm_compute; reflexivity).
  split; [exact Hrun|].
  exact (to_hipscat_descriptor_frame Demo.env_ok Demo.small_sky "/out" (Some "renamed")
           None Demo.store (Demo.exported (Some "renamed")) Hrun).
Defined.

(** The source says 131 rows; the descriptor written says 12, under the new
    name, with the type, epoch and columns of the source. *)
Example small_sky_renamed_descriptor :
  catalog_infos_written (new_calls Demo.store (Demo.exported (Some "renamed")))
  = [mkCatalogInfo "renamed" "object" 12 "J2000" "ra" "dec"].
Proof. by vm_compute. Qed.

Lemma create_modified_catalog_structure_preserves_source_witness :
  structs Demo.store !! 0%nat = Some Demo.small_sky_hc ∧
  infos Demo.store !! catalog_info Demo.small_sky_hc = Some Demo.small_sky_info ∧
  create_modified_catalog_structure Demo.env_ok 0 "/out" "copy" (total_rows_kwarg 12)
    Demo.store = (Ok 1%nat, Demo.modified) ∧
  structs Demo.modified !! 0%nat = Some Demo.small_sky_hc ∧
  infos Demo.modified !! catalog_info Demo.small_sky_hc = Some Demo.small_sky_info ∧
  structs Demo.store ⊆ structs Demo.modified ∧
  infos Demo.store ⊆ infos Demo.modified ∧
  ∃ r' : loc, Ok 1%nat = Ok r' ∧ r' ≠ 0%nat ∧ structs Demo.store !! r' = None.
Proof.
  assert (create_modified_catalog_structure Demo.env_ok 0 "/out" "copy"
            (total_rows_kwarg 12) Demo.store = (Ok 1%nat, Demo.modified)) as Hrun
    by (vm_compute; reflexivity).
  split; [reflexivity|]. split; [reflexivity|]. split; [exact Hrun|].
  exact (create_modified_catalog_structure_preserves_source Demo.env_ok 0 "/out" "copy"
           (total_rows_kwarg 12) Demo.store Demo.small_sky_hc Demo.small_sky_info
           (Ok 1%nat) Demo.modified eq_refl eq_refl Hrun).
Defined.


(** The tile of pixel 3 stays on disk when the tile of pixel 4 fails. *)
Example disk_full_leaves_first_tile :
  new_calls Demo.store Demo.disk_filled
  = [ MakeDirectory "/out";
      WriteDataframeToParquet (Demo.rows 5) "/out/Norder=1/Dir=0/Npix=3.parquet" None ].
Proof. by vm_compute. Qed.


Lemma to_hipscat_directory_failure_witness :
  io_outcome Demo.env_occupied (disk Demo.store)
    (MakeDirectory (get_file_pointer_from_path Demo.env_occupied "/out"))
  = Some (OSError "File exists") ∧
  to_hipscat Demo.env_occupied Demo.small_sky "/out" None None Demo.store
  = (Raise (OSError "File exists"), Demo.store) ∧
  @Raise unit (OSError "File exists") = Raise (OSError "File exists") ∧
  Demo.store = Demo.store ∧
  data_files_written (new_calls Demo.store Demo.store) = [].
Proof.
  assert (to_hipscat Demo.env_occupied Demo.small_sky "/out" None None Demo.store
          = (Raise (OSError "File exists"), Demo.store)) as Hrun by (vm_compute; reflexivity).
  split; [reflexivity|]. split; [exact Hrun|].
  exact (to_hipscat_directory_failure Demo.env_occupied Demo.small_sky "/out" None None
           Demo.store (OSError "File exists") (Raise (OSError "File exists")) Demo.store
           eq_refl Hrun).
Defined.

Lemma to_hipscat_provenance_witness :
  to_hipscat Demo.env_ok Demo.small_sky "/out" None None Demo.store
  = (Ok tt, Demo.exported None) ∧
  ∃ s i p,
    structs Demo.store !! hc_structure Demo.small_sky = Some s ∧
    infos Demo.store !! catalog_info s = Some i ∧
    provenance_written (new_calls Demo.store (Demo.exported None)) = [p] ∧
    tool_name p = "lsdb" ∧
    version_ p = version Demo.env_ok "lsdb" ∧
    PyDict.keys (runtime_args p)
    = [ "catalog_name"; "output_path"; "output_catalog_name"; "catalog_path";
        "epoch"; "catalog_type"; "ra_column"; "dec_column" ] ∧
    PyDict.get "catalog_name" (runtime_args p) = Some (effective_name None s) ∧
    PyDict.get "output_catalog_name" (runtime_args p) = Some (effective_name None s) ∧
    PyDict.get "output_path" (runtime_args p) = Some "/out" ∧
    PyDict.get "catalog_path" (runtime_args p) = Some "/out" ∧
    PyDict.get "ra_column" (runtime_args p) = Some (ci_ra_column i) ∧
    PyDict.get "dec_column" (runtime_args p) = Some (ci_dec_column i) ∧
    PyDict.get "catalog_type" (runtime_args p) = Some (ci_catalog_type i) ∧
    PyDict.get "epoch" (runtime_args p) = Some (ci_epoch i).
Proof.
  assert (to_hipscat Demo.env_ok Demo.small_sky "/out" None None Demo.store
          = (Ok tt, Demo.exported None)) as Hrun by (vm_compute; reflexivity).
  split; [exact Hrun|].
  exact (to_hipscat_provenance Demo.env_ok Demo.small_sky "/out" None None
           Demo.store (Demo.exported None) Hrun).
Defined.

Lemma to_hipscat_name_written_witness :
  to_hipscat Demo.env_ok Demo.small_sky "/out" (Some "renamed") None Demo.store
  = (Ok tt, Demo.exported (Some "renamed")) ∧
  ∃ s,
    structs Demo.store !! hc_structure Demo.small_sky = Some s ∧
    (Some "renamed" = None →
     ci_catalog_name <$>
       catalog_infos_written (new_calls Demo.store (Demo.exported (Some "renamed")))
     = [catalog_name s]) ∧
    (∀ n, Some "renamed" = Some n → n ≠ "" →
     ci_catalog_name <$>
       catalog_infos_written (new_calls Demo.store (Demo.exported (Some "renamed")))
     = [n]).
Proof.
  assert (to_hipscat Demo.env_ok Demo.small_sky "/out" (Some "renamed") None Demo.store
          = (Ok tt, Demo.exported (Some "renamed"))) as Hrun by (vm_compute; reflexivity).
  split; [exact Hrun|].
  exact (to_hipscat_name_written Demo.env_ok Demo.small_sky "/out" (Some "renamed") None
           Demo.store (Demo.exported (Some "renamed")) Hrun).
Defined.

(** C9, as stated, fails.  The override given is the empty string; the
    export returns, and the name in the descriptor written is [small_sky],
    not the override. *)
Lemma empty_override_not_written :
  to_hipscat Demo.env_ok Demo.small_sky "/out" (Some "") None Demo.store
  = (Ok tt, Demo.exported (Some "")) ∧
  ci_catalog_name <$>
    catalog_infos_written (new_calls Demo.store (Demo.exported (Some "")))
  = ["small_sky"] ∧
  ci_catalog_name <$>
    catalog_infos_written (new_calls Demo.store (Demo.exported (Some "")))
  ≠ [""].
Proof.
  assert (ci_catalog_name <$>
            catalog_infos_written (new_calls Demo.store (Demo.exported (Some "")))
          = ["small_sky"]) as Hname by (vm_compute; reflexivity).
  split_and!; [by vm_compute|exact Hname|].
  by rewrite Hname.
Qed.

Lemma to_hipscat_empty_override_witness :
  to_hipscat Demo.env_ok Demo.small_sky "/out" (Some "") None Demo.store
  = (Ok tt, Demo.exported (Some "")) ∧
  to_hipscat Demo.env_ok Demo.small_sky "/out" (Some "") None Demo.store
  = to_hipscat Demo.env_ok Demo.small_sky "/out" None None Demo.store ∧
  ∃ s, structs Demo.store !! hc_structure Demo.small_sky = Some s ∧
    ci_catalog_name <$>
      catalog_infos_written (new_calls Demo.store (Demo.exported (Some "")))
    = [catalog_name s] ∧
    (λ p, (PyDict.get "catalog_name" (runtime_args p),
            PyDict.get "output_catalog_name" (runtime_args p)))
      <$> provenance_written (new_calls Demo.store (Demo.exported (Some "")))
    = [(Some (catalog_name s), Some (catalog_name s))].
Proof.
  assert (to_hipscat Demo.env_ok Demo.small_sky "/out" (Some "") None Demo.store
          = (Ok tt, Demo.exported (Some ""))) as Hrun by (vm_compute; reflexivity).
  split; [exact Hrun|].
  destruct (to_hipscat_empty_override Demo.env_ok Demo.small_sky "/out" None Demo.store)
    as [Heq Hnames].
  split; [exact Heq|].
  exact (Hnames (Demo.exported (Some "")) Hrun).
Defined.

(** * Further properties *)

(** ** Computations that only extend the state *)

Section logs_facts.
Variable E : Env.
Implicit Types (σ : State) (c : io_call) (catalog : Catalog) (P Q : io_call → Prop).

Lemma logs_ret {A} P Q (a : A) : logs P Q (ret a).
Proof.
  intros σ r σ' [= <- <-]. split_and!; [done..|].
  exists []. by rewrite app_nil_r.
Qed.

Lemma logs_bind {A B} P Q (m : M A) (k : A → M B) :
  (∀ c, P c → Q c) →
  logs P P m → (∀ a, logs P Q (k a)) → logs P Q (m ≫= k).
Proof.
  intros HPQ Hm Hk σ r σ'. unfold mbind, M_bind, bind.
  destruct (m σ) as [[a|e] σ1] eqn:Hrun.
  - intros Hrun2.
    destruct (Hm _ _ _ Hrun) as (Hs1 & Hi1 & log1 & Hd1 & HP1).
    destruct (Hk a _ _ _ Hrun2) as (Hs2 & Hi2 & log2 & Hd2 & HP2).
    split_and!; [by etrans|by etrans|].
    exists (log1 ++ log2). split; [by rewrite Hd2, Hd1, app_assoc|].
    destruct r; apply Forall_app; split; try done.
    by eapply Forall_impl.
  - intros [= <- <-]. by apply (Hm _ _ _ Hrun).
Qed.

Lemma logs_io P Q c : Q c → logs P Q (io E c).
Proof.
  intros HQ σ r σ'. unfold io. destruct (io_outcome E (disk σ) c).
  - intros [= <- <-]. split_and!; [done..|]. exists []. by rewrite app_nil_r.
  - intros [= <- <-]. split_and!; [done..|]. exists [c]. split; [done|].
    by apply Forall_singleton.
Qed.

Lemma logs_getattr_hc P Q (r : loc) : logs P Q (getattr_hc r).
Proof.
  intros σ res σ'. unfold getattr_hc.
  destruct (structs σ !! r); intros [= <- <-];
    (split_and!; [done..|]); exists []; by rewrite app_nil_r.
Qed.

Lemma logs_getattr_info P Q (r : loc) : logs P Q (getattr_info r).
Proof.
  intros σ res σ'. unfold getattr_info.
  destruct (infos σ !! r); intros [= <- <-];
    (split_and!; [done..|]); exists []; by rewrite app_nil_r.
Qed.

Lemma Forall_tile_write P catalog fp so todo :
  (∀ c, kind_of c = KWriteDataframeToParquet → P c) →
  Forall P (tile_write E catalog fp so <$> todo).
Proof. intros HP. apply Forall_fmap, Forall_true. intros x. by apply HP. Qed.

Lemma logs_write_partitions P catalog fp so :
  (∀ c, kind_of c = KWriteDataframeToParquet → P c) →
  logs P P (write_partitions E catalog fp so).
Proof.
  intros HP σ [m|e] σ' Hrun.
  - apply write_partitions_loop_Ok in Hrun as (_ & _ & ->). cbn [structs infos disk].
    split_and!; [done..|]. eexists. split; [done|]. by apply Forall_tile_write.
  - apply write_partitions_loop_Raise in Hrun as (written & px & idx & rest & _ & _ & -> & _).
    cbn [structs infos disk].
    split_and!; [done..|]. eexists. split; [done|]. by apply Forall_tile_write.
Qed.

Lemma logs_create_modified_catalog_structure P Q (r : loc) dir name kw :
  logs P Q (create_modified_catalog_structure E r dir name kw).
Proof.
  intros σ res σ'. rewrite create_modified_catalog_structure_eq.
  pose proof (fresh_struct_None σ). pose proof (fresh_info_None σ).
  destruct (structs σ !! r) as [s|]; [cbv zeta; destruct (infos σ !! catalog_info s)|];
    intros [= <- <-]; cbn [structs infos disk];
    (split_and!; [done || by apply insert_subseteq..|]);
    exists []; by rewrite app_nil_r.
Qed.

Lemma logs_if_truthy_else P Q override (r : loc) :
  logs P Q (if_truthy_else override (s ← getattr_hc r; ret (catalog_name s))).
Proof.
  assert (logs P Q (s ← getattr_hc r; ret (catalog_name s))) as Hget.
  { intros σ res σ'. unfold mbind, M_bind, bind, getattr_hc, ret.
    destruct (structs σ !! r); intros [= <- <-];
      (split_and!; [done..|]); exists []; by rewrite app_nil_r. }
  unfold if_truthy_else. destruct override as [n|]; [case_decide|]; try done.
  apply logs_ret.
Qed.

Lemma logs_get_provenance_info P Q (r : loc) : logs P Q (_get_provenance_info E r).
Proof.
  intros σ res σ'. unfold _get_provenance_info, mbind, M_bind, bind, getattr_hc, getattr_info, ret.
  destruct (structs σ !! r) as [s|]; [destruct (infos σ !! catalog_info s)|];
    intros [= <- <-]; (split_and!; [done..|]); exists []; by rewrite app_nil_r.
Qed.

(** Every call of an export but the last is not the provenance write, and
    no step touches an object that was in the store. *)
Lemma to_hipscat_logs P catalog base override so :
  (∀ c, kind_of c ≠ KWriteProvenanceInfo → P c) →
  logs P (λ _, True) (to_hipscat E catalog base override so).
Proof.
  intros HP. unfold to_hipscat.
  apply logs_bind; [done|by apply logs_io, HP|intros _].
  apply logs_bind; [done|apply logs_write_partitions; intros c Hc; apply HP; by rewrite Hc|intros m].
  apply logs_bind; [done|by apply logs_io, HP|intros _].
  apply logs_bind; [done|by apply logs_io, HP|intros _].
  apply logs_bind; [done|apply logs_if_truthy_else|intros name].
  apply logs_bind; [done|apply logs_create_modified_catalog_structure|intros r'].
  apply logs_bind; [done|apply logs_getattr_hc|intros s'].
  apply logs_bind; [done|apply logs_getattr_info|intros i'].
  apply logs_bind; [done|by apply logs_io, HP|intros _].
  apply logs_bind; [done|apply logs_getattr_hc|intros s''].
  apply logs_bind; [done|apply logs_getattr_info|intros i''].
  apply logs_bind; [done|apply logs_get_provenance_info|intros p].
  by apply logs_io.
Qed.

End logs_facts.

(** ** More on the log and on sums *)

Section more_log_facts.
Variable E : Env.
Implicit Types (σ : State) (catalog : Catalog) (log : list io_call).

Lemma partition_infos_written_app log1 log2 :
  partition_infos_written (log1 ++ log2)
  = partition_infos_written log1 ++ partition_infos_written log2.
Proof. apply omap_app. Qed.

Lemma partition_infos_written_tiles catalog fp so todo :
  partition_infos_written (tile_write E catalog fp so <$> todo) = [].
Proof. by induction todo. Qed.

Lemma kind_of_tiles catalog fp so todo :
  kind_of <$> (tile_write E catalog fp so <$> todo)
  = replicate (length todo) KWriteDataframeToParquet.
Proof. induction todo as [|x todo IH]; [done|]. cbn. by f_equal. Qed.

Lemma provenance_written_none log :
  Forall (λ c, kind_of c ≠ KWriteProvenanceInfo) log → provenance_written log = [].
Proof.
  induction 1 as [|c log Hc _ IH]; [done|].
  unfold provenance_written in *. cbn. rewrite IH. by destruct c.
Qed.

Lemma sum_from (a : Z) (l : list Z) : foldl Z.add a l = (a + sum l)%Z.
Proof.
  unfold sum. revert a. induction l as [|x l IH]; intros a; simpl; [lia|].
  rewrite (IH (a + x)%Z), (IH (0 + x)%Z). lia.
Qed.

Lemma sum_cons (x : Z) (l : list Z) : sum (x :: l) = (x + sum l)%Z.
Proof. unfold sum at 1. simpl. by rewrite sum_from. Qed.

Lemma sum_nonneg (l : list Z) : Forall (λ x, 0 ≤ x)%Z l → (0 ≤ sum l)%Z.
Proof.
  induction 1 as [|x l Hx _ IH]; [done|]. rewrite sum_cons. lia.
Qed.

Lemma set_values_Forall {K} `{EqDecision K} (P : Z → Prop) (k : K) v (d : list (K * Z)) :
  P v → Forall P (PyDict.values d) → Forall P (PyDict.values (PyDict.set k v d)).
Proof.
  intros Hv. unfold PyDict.values. induction d as [|[k' v'] d IH]; simpl.
  - intros _. by apply Forall_singleton.
  - intros [Hv' Hd]%Forall_cons. case_decide; simpl; apply Forall_cons; auto.
Qed.

Lemma write_partitions_counts_nonneg catalog fp so σ m σ' :
  write_partitions E catalog fp so σ = (Ok m, σ') →
  Forall (λ n, 0 ≤ n)%Z (PyDict.values m).
Proof.
  intros (_ & -> & _)%write_partitions_loop_Ok.
  generalize (PyDict.items (_ddf_pixel_map catalog)). intros todo.
  assert (Forall (λ n, 0 ≤ n)%Z (PyDict.values (@nil (HealpixPixel * Z)))) as Hacc
    by constructor.
  revert Hacc. generalize (@nil (HealpixPixel * Z)).
  induction todo as [|[px idx] todo IH]; intros acc Hacc; simpl; [done|].
  apply IH, set_values_Forall; [|done]. unfold rows_of. lia.
Qed.

End more_log_facts.

(** ** What every export does *)

Section export_extras.
Variable E : Env.
Implicit Types (σ : State) (s : HCCatalog) (i : CatalogInfo) (catalog : Catalog).

(** X1.  Whatever an export does, return or raise at any step, the state it
    ends in extends the one it started from: every structure and every
    descriptor that was in the store has all its attributes unchanged, and
    no call recorded on the disk is taken back. *)
Theorem to_hipscat_extends catalog base override so σ :
  extends σ (to_hipscat E catalog base override so σ).2.
Proof.
  destruct (to_hipscat E catalog base override so σ) as [res σ'] eqn:Hrun.
  destruct (to_hipscat_logs E (λ _, True) catalog base override so (λ _ _, I) _ _ _ Hrun)
    as (Hs & Hi & log & Hd & _).
  split_and!; [done..|]. by exists log.
Qed.

(** X2.  The provenance write is the last thing an export does: in any run
    the provenance was written exactly when the export returned, and a run
    that raises has written none. *)
Theorem to_hipscat_provenance_iff_returns catalog base override so σ res σ' :
  to_hipscat E catalog base override so σ = (res, σ') →
  (res = Ok tt ↔ provenance_written (new_calls σ σ') ≠ []) ∧
  (∀ e, res = Raise e → provenance_written (new_calls σ σ') = []).
Proof.
  intros Hrun.
  assert (∀ e, res = Raise e → provenance_written (new_calls σ σ') = []) as Hraise.
  { intros e ->.
    destruct (to_hipscat_logs E (λ c, kind_of c ≠ KWriteProvenanceInfo)
                catalog base override so (λ _ H, H) _ _ _ Hrun)
      as (_ & _ & log & Hd & Hlog).
    rewrite (new_calls_app _ _ _ Hd). by apply provenance_written_none. }
  split; [|done]. split.
  - intros ->.
    apply to_hipscat_Ok_log in Hrun as (s & i & m & σ1 & σ2 & _ & _ & _ & _ & _ & _ & ->).
    by rewrite !provenance_written_app, provenance_written_tiles.
  - intros Hprov. destruct res as [[]|e]; [done|]. by rewrite (Hraise e) in Hprov.
Qed.

(** X3.  The calls of an export that returns, by kind and in order: the
    directory, one data file per item of the pixel map, the parquet
    metadata, the partition info, the catalog info, the provenance. *)
Theorem to_hipscat_call_order catalog base override so σ σ' :
  to_hipscat E catalog base override so σ = (Ok tt, σ') →
  kind_of <$> new_calls σ σ'
  = [KMakeDirectory]
    ++ replicate (length (PyDict.items (_ddf_pixel_map catalog))) KWriteDataframeToParquet
    ++ [KWriteParquetMetadata; KWritePartitionInfo; KWriteCatalogInfo; KWriteProvenanceInfo].
Proof.
  intros (s & i & m & σ1 & σ2 & _ & _ & _ & _ & _ & _ & ->)%to_hipscat_Ok_log.
  by rewrite !fmap_app, kind_of_tiles.
Qed.

(** X4.  The three metadata artifacts of an export that returns agree with
    each other: the total row count of the descriptor is the sum of the row
    counts of the partition info; the descriptor handed to the provenance
    write is the one written as catalog info; the name, epoch, catalog type
    and coordinate columns of the provenance are those of that descriptor;
    and, when the tile keys are pairwise distinct, the data files written
    are those of the tiles the partition info lists, in the same order. *)
Theorem to_hipscat_artifacts_agree catalog base override so σ σ' :
  to_hipscat E catalog base override so σ = (Ok tt, σ') →
  ∃ pinfo info p,
    partition_infos_written (new_calls σ σ') = [pinfo] ∧
    catalog_infos_written (new_calls σ σ') = [info] ∧
    provenance_written (new_calls σ σ') = [p] ∧
    last (new_calls σ σ')
    = Some (WriteProvenanceInfo (get_file_pointer_from_path E base) info p so) ∧
    ci_total_rows info = sum ((PyDict.values pinfo).*1) ∧
    PyDict.get "catalog_name" (runtime_args p) = Some (ci_catalog_name info) ∧
    PyDict.get "epoch" (runtime_args p) = Some (ci_epoch info) ∧
    PyDict.get "catalog_type" (runtime_args p) = Some (ci_catalog_type info) ∧
    PyDict.get "ra_column" (runtime_args p) = Some (ci_ra_column info) ∧
    PyDict.get "dec_column" (runtime_args p) = Some (ci_dec_column info) ∧
    (PyDict.wf (_ddf_pixel_map catalog) →
     data_files_written (new_calls σ σ')
     = (λ px, pixel_catalog_file E (get_file_pointer_from_path E base) (order px) (pixel px))
         <$> PyDict.keys pinfo).
Proof.
  intros (s & i & m & σ1 & σ2 & _ & _ & _ & Hwp & _ & _ & ->)%to_hipscat_Ok_log.
  pose proof (write_partitions_wf _ _ _ _ _ _ _ Hwp) as Hwf.
  eexists _, _, _. split_and!.
  - by rewrite !partition_infos_written_app, partition_infos_written_tiles.
  - by rewrite !catalog_infos_written_app, catalog_infos_written_tiles.
  - by rewrite !provenance_written_app, provenance_written_tiles.
  - by rewrite !last_app.
  - by rewrite partition_info_counts.
  - done.
  - done.
  - done.
  - done.
  - done.
  - intros Hmap. rewrite !data_files_written_app, data_files_written_tiles.
    cbn. rewrite app_nil_r, partition_info_keys by done.
    rewrite (write_partitions_fmap _ _ _ _ _ _ _ Hmap Hwp).
    unfold PyDict.keys, PyDict.items. rewrite <- !list_fmap_compose.
    apply list_fmap_ext. by intros _ [px idx] _.
Qed.

(** X5.  A catalog with an empty pixel map: an export that returns has
    written no data file, an empty partition info and a descriptor whose
    total row count is 0. *)
Theorem to_hipscat_empty_catalog catalog base override so σ σ' :
  _ddf_pixel_map catalog = [] →
  to_hipscat E catalog base override so σ = (Ok tt, σ') →
  data_files_written (new_calls σ σ') = [] ∧
  partition_infos_written (new_calls σ σ') = [[]] ∧
  ci_total_rows <$> catalog_infos_written (new_calls σ σ') = [0%Z].
Proof.
  intros Hempty (s & i & m & σ1 & σ2 & _ & _ & _ & Hwp & _ & _ & ->)%to_hipscat_Ok_log.
  apply write_partitions_loop_Ok in Hwp as (_ & -> & _).
  rewrite Hempty. by split_and!.
Qed.

(** X6.  Every row count in the map returned by the partition-writing step
    is a length, so none is negative; the total row count an export writes
    is not negative either. *)
Theorem to_hipscat_total_rows_nonneg catalog base override so σ σ' :
  to_hipscat E catalog base override so σ = (Ok tt, σ') →
  Forall (λ info, 0 ≤ ci_total_rows info)%Z (catalog_infos_written (new_calls σ σ')).
Proof.
  intros (s & i & m & σ1 & σ2 & _ & _ & _ & Hwp & ->)%to_hipscat_Ok_descriptor.
  apply Forall_singleton. cbn.
  by apply sum_nonneg, (write_partitions_counts_nonneg E _ _ _ _ _ _ Hwp).
Qed.

End export_extras.

(** ** The partition info dictionary, again *)

Lemma get_fmap_values {K V W} `{EqDecision K} (f : K → V → W) (k : K) (d : list (K * V)) :
  PyDict.get k ((λ '(k', v), (k', f k' v)) <$> d) = f k <$> PyDict.get k d.
Proof.
  induction d as [|[k' v'] d IH]; [done|]. cbn. case_decide; [by subst|done].
Qed.

(** X7.  Looking a tile up in the partition info dictionary is looking it
    up in the row-count dictionary: a tile that is absent from the one is
    absent from the other, a tile that is present has its row count and the
    one-element list of its own pixel. *)
Theorem partition_info_lookup (m : dict HealpixPixel Z) px :
  PyDict.wf m →
  PyDict.get px (_get_partition_info_dict m)
  = (λ n, (n, [pixel px])) <$> PyDict.get px m.
Proof.
  intros Hwf. rewrite partition_info_fmap by done.
  apply (get_fmap_values (λ px n, (n, [pixel px]))).
Qed.

(** X8.  The row-count dictionary can be read back from the partition info
    dictionary: dropping the destination lists gives the dictionary it was
    built from, entry for entry and in the same order; and every destination
    list is the one-element list of the pixel of its key. *)
Theorem partition_info_round_trip (m : dict HealpixPixel Z) :
  PyDict.wf m →
  (λ entry, (entry.1, entry.2.1)) <$> _get_partition_info_dict m = m ∧
  Forall (λ entry, entry.2.2 = [pixel entry.1]) (_get_partition_info_dict m).
Proof.
  intros Hwf. rewrite partition_info_fmap by done. split.
  - rewrite <- list_fmap_compose. rewrite <- (list_fmap_id m) at 2.
    apply list_fmap_ext. by intros _ [px n] _.
  - apply Forall_fmap, Forall_true. by intros [px n].
Qed.

(** ** The modified structure, again *)

Lemma replaced_replaced i name1 kw1 name2 kw2 :
  replaced (replaced i name1 kw1) name2 kw2 = replaced i name2 (merge_kwargs kw2 kw1).
Proof.
  destruct kw1 as [[?|] [?|] [?|] [?|] [?|]], kw2 as [[?|] [?|] [?|] [?|] [?|]]; reflexivity.
Qed.

Section structure_extras.
Variable E : Env.
Implicit Types (σ : State) (s : HCCatalog) (i : CatalogInfo) (r : loc).

(** X9.  Modifying a modified structure: the second call decides the name
    and the base directory, and the keyword arguments of the two calls
    add up, the later ones winning.  The structure and the descriptor
    obtained have the attributes a single call with the merged keyword
    arguments gives (the references apart, which are new in each call). *)
Theorem create_modified_catalog_structure_twice r dir1 name1 kw1 dir2 name2 kw2 σ s i :
  structs σ !! r = Some s →
  infos σ !! catalog_info s = Some i →
  ∃ r1 σ1 r2 σ2 s2 i2 r3 σ3 s3 i3,
    create_modified_catalog_structure E r dir1 name1 kw1 σ = (Ok r1, σ1) ∧
    create_modified_catalog_structure E r1 dir2 name2 kw2 σ1 = (Ok r2, σ2) ∧
    structs σ2 !! r2 = Some s2 ∧
    infos σ2 !! catalog_info s2 = Some i2 ∧
    create_modified_catalog_structure E r dir2 name2 (merge_kwargs kw2 kw1) σ = (Ok r3, σ3) ∧
    structs σ3 !! r3 = Some s3 ∧
    infos σ3 !! catalog_info s3 = Some i3 ∧
    i2 = i3 ∧
    i2 = replaced i name2 (merge_kwargs kw2 kw1) ∧
    with_catalog_info (catalog_info s3) s2 = s3.
Proof.
  intros Hs Hi.
  pose proof (fresh_struct_None σ) as Hr1. pose proof (fresh_info_None σ) as Hi1.
  eexists _, _, _, _, _, _, _, _, _, _. split_and!.
  - rewrite create_modified_catalog_structure_eq, Hs. cbv zeta. by rewrite Hi.
  - rewrite create_modified_catalog_structure_eq. cbn [structs infos disk].
    rewrite lookup_insert_eq. cbv zeta. cbn [with_catalog_info catalog_info].
    by rewrite lookup_insert_eq.
  - cbn [structs]. apply lookup_insert_eq.
  - cbn [infos with_catalog_info catalog_info]. apply lookup_insert_eq.
  - rewrite create_modified_catalog_structure_eq, Hs. cbv zeta. by rewrite Hi.
  - cbn [structs]. apply lookup_insert_eq.
  - cbn [infos with_catalog_info catalog_info]. apply lookup_insert_eq.
  - apply replaced_replaced.
  - apply replaced_replaced.
  - done.
Qed.

(** X10.  The structure returned does not share its descriptor with the
    source, nor with any structure that was in the store: its [catalog_info]
    is an object created by the call. *)
Theorem create_modified_catalog_structure_new_descriptor r dir name kw σ s i r' σ' :
  structs σ !! r = Some s →
  infos σ !! catalog_info s = Some i →
  create_modified_catalog_structure E r dir name kw σ = (Ok r', σ') →
  ∃ s', structs σ' !! r' = Some s' ∧
    infos σ !! catalog_info s' = None ∧
    is_Some (infos σ' !! catalog_info s') ∧
    catalog_info s' ≠ catalog_info s ∧
    ∀ l o, structs σ !! l = Some o → is_Some (infos σ !! catalog_info o) →
      catalog_info o ≠ catalog_info s'.
Proof.
  intros Hs Hi. rewrite create_modified_catalog_structure_eq, Hs. cbv zeta. rewrite Hi.
  intros [= <- <-]. pose proof (fresh_info_None σ) as Hnew.
  eexists. split; [apply lookup_insert_eq|]. cbn [with_catalog_info catalog_info infos].
  split_and!.
  - done.
  - rewrite lookup_insert_eq. by eexists.
  - congruence.
  - intros l o _ [i0 Hi0] Heq. rewrite Heq in Hi0. congruence.
Qed.

End structure_extras.

(** ** Failures, and runs that are repeated *)

Section failure_extras.
Variable E : Env.
Implicit Types (σ : State) (s : HCCatalog) (i : CatalogInfo) (catalog : Catalog).



(** X12.  When the data files are written and the parquet metadata write
    raises, the export raises that exception as it is and stops: every data
    file is on the disk, no partition info, catalog info or provenance was
    written, and the store is the one the export started with. *)
Theorem to_hipscat_parquet_metadata_failure catalog base override so σ σ1 m σ2 e :
  io E (MakeDirectory (get_file_pointer_from_path E base)) σ = (Ok tt, σ1) →
  write_partitions E catalog (get_file_pointer_from_path E base) so σ1 = (Ok m, σ2) →
  io_outcome E (disk σ2) (WriteParquetMetadata base so) = Some e →
  to_hipscat E catalog base override so σ = (Raise e, σ2) ∧
  structs σ2 = structs σ ∧ infos σ2 = infos σ ∧
  kind_of <$> new_calls σ σ2
  = KMakeDirectory ::
    replicate (length (PyDict.items (_ddf_pixel_map catalog))) KWriteDataframeToParquet.
Proof.
  intros Hmk Hwp Hfail. split.
  - unfold to_hipscat. rewrite (bind_Ok_run _ _ _ _ _ Hmk), (bind_Ok_run _ _ _ _ _ Hwp).
    by rewrite (bind_Raise_run _ _ _ _ _ (io_Raise_run E _ _ _ Hfail)).
  - apply io_Ok_inv in Hmk as [_ ->].
    apply write_partitions_loop_Ok in Hwp as (_ & _ & ->). cbn [structs infos disk].
    split_and!; [done..|].
    erewrite new_calls_app; [|cbn [disk]; by rewrite <- app_assoc].
    cbn. by rewrite kind_of_tiles.
Qed.

(** X13.  The row-count map depends on the catalog only: two
    partition-writing steps on the same catalog that return, whatever the
    I/O layers, the destinations, the storage options and the states they
    run in, return the same map. *)
Theorem write_partitions_counts_of_catalog (E' : Env) catalog fp so σ m τ fp' so' σ' m' τ' :
  write_partitions E catalog fp so σ = (Ok m, τ) →
  write_partitions E' catalog fp' so' σ' = (Ok m', τ') →
  m = m'.
Proof.
  intros (_ & -> & _)%write_partitions_loop_Ok (_ & -> & _)%write_partitions_loop_Ok.
  done.
Qed.

(** X14.  Exporting again: a second export of the same catalog with the
    same arguments, run in the state the first one left and returning too,
    writes the same partition info, the same descriptor and the same
    provenance as the first.  The objects the first export created stay in
    the store. *)
Theorem to_hipscat_again catalog base override so σ σ' σ'' :
  to_hipscat E catalog base override so σ = (Ok tt, σ') →
  to_hipscat E catalog base override so σ' = (Ok tt, σ'') →
  partition_infos_written (new_calls σ' σ'') = partition_infos_written (new_calls σ σ') ∧
  catalog_infos_written (new_calls σ' σ'') = catalog_infos_written (new_calls σ σ') ∧
  provenance_written (new_calls σ' σ'') = provenance_written (new_calls σ σ') ∧
  structs σ' ⊆ structs σ'' ∧ infos σ' ⊆ infos σ''.
Proof.
  intros Hrun1 Hrun2.
  pose proof (to_hipscat_logs E (λ _, True) catalog base override so (λ _ _, I) _ _ _ Hrun1)
    as (Hst1 & Hin1 & _).
  pose proof (to_hipscat_logs E (λ _, True) catalog base override so (λ _ _, I) _ _ _ Hrun2)
    as (Hst2 & Hin2 & _).
  apply to_hipscat_Ok_log in Hrun1
    as (s & i & m & σ1 & σ2 & Hs & Hi & _ & Hwp1 & _ & _ & ->).
  apply to_hipscat_Ok_log in Hrun2
    as (s2 & i2 & m2 & τ1 & τ2 & Hs2 & Hi2 & _ & Hwp2 & _ & _ & ->).
  assert (s2 = s) as ->.
  { apply (lookup_weaken _ _ _ _ Hs) in Hst1. congruence. }
  assert (i2 = i) as ->.
  { apply (lookup_weaken _ _ _ _ Hi) in Hin1. congruence. }
  assert (m2 = m) as ->.
  { apply write_partitions_loop_Ok in Hwp1 as (_ & -> & _).
    by apply write_partitions_loop_Ok in Hwp2 as (_ & -> & _). }
  split_and!; [| | |done|done].
  - by rewrite !partition_infos_written_app, !partition_infos_written_tiles.
  - by rewrite !catalog_infos_written_app, !catalog_infos_written_tiles.
  - by rewrite !provenance_written_app, !provenance_written_tiles.
Qed.

End failure_extras.

(** ** Storage options *)

Section storage_extras.
Variable E : Env.
Implicit Types (σ : State) (catalog : Catalog) (P : io_call → Prop).

Lemma logs_write_partitions_with P catalog fp so :
  (∀ df path, P (WriteDataframeToParquet df path so)) →
  logs P P (write_partitions E catalog fp so).
Proof.
  intros HP.
  assert (∀ todo, Forall P (tile_write E catalog fp so <$> todo)) as Htiles.
  { intros todo. apply Forall_fmap, Forall_true. intros x. apply HP. }
  intros σ [m|e] σ' Hrun.
  - apply write_partitions_loop_Ok in Hrun as (_ & _ & ->). cbn [structs infos disk].
    split_and!; [done..|]. eexists. by split.
  - apply write_partitions_loop_Raise in Hrun as (written & px & idx & rest & _ & _ & -> & _).
    cbn [structs infos disk]. split_and!; [done..|]. eexists. by split.
Qed.

Lemma to_hipscat_logs_with P catalog base override so :
  P (MakeDirectory (get_file_pointer_from_path E base)) →
  (∀ c, call_storage_options c = Some so → P c) →
  logs P P (to_hipscat E catalog base override so).
Proof.
  intros Hmk HP. unfold to_hipscat.
  apply logs_bind; [done|by apply logs_io|intros _].
  apply logs_bind; [done|apply logs_write_partitions_with; intros; by apply HP|intros m].
  apply logs_bind; [done|by apply logs_io, HP|intros _].
  apply logs_bind; [done|by apply logs_io, HP|intros _].
  apply logs_bind; [done|apply logs_if_truthy_else|intros name].
  apply logs_bind; [done|apply logs_create_modified_catalog_structure|intros r'].
  apply logs_bind; [done|apply logs_getattr_hc|intros s'].
  apply logs_bind; [done|apply logs_getattr_info|intros i'].
  apply logs_bind; [done|by apply logs_io, HP|intros _].
  apply logs_bind; [done|apply logs_getattr_hc|intros s''].
  apply logs_bind; [done|apply logs_getattr_info|intros i''].
  apply logs_bind; [done|apply logs_get_provenance_info|intros p].
  by apply logs_io, HP.
Qed.

(** X15.  In any run of an export, returning or not, every call into the
    I/O layer is made with the storage options the caller gave, except the
    creation of the destination directory, which is made with the file
    pointer of the destination and no storage options. *)
Theorem to_hipscat_storage_options catalog base override so σ res σ' :
  to_hipscat E catalog base override so σ = (res, σ') →
  Forall (λ c, c = MakeDirectory (get_file_pointer_from_path E base) ∨
               call_storage_options c = Some so)
    (new_calls σ σ').
Proof.
  intros Hrun.
  destruct (to_hipscat_logs_with
              (λ c, c = MakeDirectory (get_file_pointer_from_path E base) ∨
                    call_storage_options c = Some so)
              catalog base override so (or_introl eq_refl) (λ _ H, or_intror H)
              _ _ _ Hrun) as (_ & _ & log & Hd & Hlog).
  rewrite (new_calls_app _ _ _ Hd). by destruct res.
Qed.

End storage_extras.

(** ** The further properties on the small sky *)

Lemma to_hipscat_provenance_iff_returns_witness :
  to_hipscat Demo.env_disk_full Demo.small_sky "/out" None None Demo.store
  = (Raise (OSError "No space left on device"), Demo.disk_filled) ∧
  (@Raise unit (OSError "No space left on device") = Ok tt ↔
   provenance_written (new_calls Demo.store Demo.disk_filled) ≠ []) ∧
  (∀ e, @Raise unit (OSError "No space left on device") = Raise e →
        provenance_written (new_calls Demo.store Demo.disk_filled) = []).
Proof.
  assert (to_hipscat Demo.env_disk_full Demo.small_sky "/out" None None Demo.store
          = (Raise (OSError "No space left on device"), Demo.disk_filled)) as Hrun
    by (vm_compute; reflexivity).
  split; [exact Hrun|].
  exact (to_hipscat_provenance_iff_returns Demo.env_disk_full Demo.small_sky "/out" None
           None Demo.store _ Demo.disk_filled Hrun).
Defined.

Lemma to_hipscat_call_order_witness :
  to_hipscat Demo.env_ok Demo.small_sky "/out" None None Demo.store
  = (Ok tt, Demo.exported None) ∧
  kind_of <$> new_calls Demo.store (Demo.exported None)
  = [KMakeDirectory]
    ++ replicate (length (PyDict.items (_ddf_pixel_map Demo.small_sky)))
         KWriteDataframeToParquet
    ++ [KWriteParquetMetadata; KWritePartitionInfo; KWriteCatalogInfo; KWriteProvenanceInfo].
Proof.
  assert (to_hipscat Demo.env_ok Demo.small_sky "/out" None None Demo.store
          = (Ok tt, Demo.exported None)) as Hrun by (vm_compute; reflexivity).
  split; [exact Hrun|].
  exact (to_hipscat_call_order Demo.env_ok Demo.small_sky "/out" None None
           Demo.store (Demo.exported None) Hrun).
Defined.

Lemma to_hipscat_artifacts_agree_witness :
  to_hipscat Demo.env_ok Demo.small_sky "/out" (Some "renamed") None Demo.store
  = (Ok tt, Demo.exported (Some "renamed")) ∧
  ∃ pinfo info p,
    partition_infos_written (new_calls Demo.store (Demo.exported (Some "renamed"))) = [pinfo] ∧
    catalog_infos_written (new_calls Demo.store (Demo.exported (Some "renamed"))) = [info] ∧
    provenance_written (new_calls Demo.store (Demo.exported (Some "renamed"))) = [p] ∧
    last (new_calls Demo.store (Demo.exported (Some "renamed")))
    = Some (WriteProvenanceInfo (get_file_pointer_from_path Demo.env_ok "/out") info p None) ∧
    ci_total_rows info = sum ((PyDict.values pinfo).*1) ∧
    PyDict.get "catalog_name" (runtime_args p) = Some (ci_catalog_name info) ∧
    PyDict.get "epoch" (runtime_args p) = Some (ci_epoch info) ∧
    PyDict.get "catalog_type" (runtime_args p) = Some (ci_catalog_type info) ∧
    PyDict.get "ra_column" (runtime_args p) = Some (ci_ra_column info) ∧
    PyDict.get "dec_column" (runtime_args p) = Some (ci_dec_column info) ∧
    (PyDict.wf (_ddf_pixel_map Demo.small_sky) →
     data_files_written (new_calls Demo.store (Demo.exported (Some "renamed")))
     = (λ px, pixel_catalog_file Demo.env_ok (get_file_pointer_from_path Demo.env_ok "/out")
                (order px) (pixel px))
         <$> PyDict.keys pinfo).
Proof.
  assert (to_hipscat Demo.env_ok Demo.small_sky "/out" (Some "renamed") None Demo.store
          = (Ok tt, Demo.exported (Some "renamed"))) as Hrun by (vm_compute; reflexivity).
  split; [exact Hrun|].
  exact (to_hipscat_artifacts_agree Demo.env_ok Demo.small_sky "/out" (Some "renamed") None
           Demo.store (Demo.exported (Some "renamed")) Hrun).
Defined.

Lemma to_hipscat_empty_catalog_witness :
  _ddf_pixel_map Demo.empty_sky = [] ∧
  to_hipscat Demo.env_ok Demo.empty_sky "/out" None None Demo.store
  = (Ok tt, Demo.exported_empty) ∧
  data_files_written (new_calls Demo.store Demo.exported_empty) = [] ∧
  partition_infos_written (new_calls Demo.store Demo.exported_empty) = [[]] ∧
  ci_total_rows <$> catalog_infos_written (new_calls Demo.store Demo.exported_empty) = [0%Z].
Proof.
  assert (to_hipscat Demo.env_ok Demo.empty_sky "/out" None None Demo.store
          = (Ok tt, Demo.exported_empty)) as Hrun by (vm_compute; reflexivity).
  split; [reflexivity|]. split; [exact Hrun|].
  exact (to_hipscat_empty_catalog Demo.env_ok Demo.empty_sky "/out" None None
           Demo.store Demo.exported_empty eq_refl Hrun).
Defined.

Lemma to_hipscat_total_rows_nonneg_witness :
  to_hipscat Demo.env_ok Demo.small_sky "/out" None None Demo.store
  = (Ok tt, Demo.exported None) ∧
  Forall (λ info, 0 ≤ ci_total_rows info)%Z
    (catalog_infos_written (new_calls Demo.store (Demo.exported None))).
Proof.
  assert (to_hipscat Demo.env_ok Demo.small_sky "/out" None None Demo.store
          = (Ok tt, Demo.exported None)) as Hrun by (vm_compute; reflexivity).
  split; [exact Hrun|].
  exact (to_hipscat_total_rows_nonneg Demo.env_ok Demo.small_sky "/out" None None
           Demo.store (Demo.exported None) Hrun).
Defined.

Lemma small_sky_counts_wf : PyDict.wf Demo.small_sky_counts.
Proof. apply (bool_decide_unpack _). by vm_compute. Defined.

(** Pixel 5 is in neither dictionary. *)
Lemma partition_info_lookup_witness :
  PyDict.wf Demo.small_sky_counts ∧
  PyDict.get (mkHealpixPixel 1 5) (_get_partition_info_dict Demo.small_sky_counts)
  = (λ n, (n, [pixel (mkHealpixPixel 1 5)])) <$> PyDict.get (mkHealpixPixel 1 5) Demo.small_sky_counts.
Proof.
  split; [exact small_sky_counts_wf|].
  exact (partition_info_lookup Demo.small_sky_counts (mkHealpixPixel 1 5) small_sky_counts_wf).
Defined.

Lemma partition_info_round_trip_witness :
  PyDict.wf Demo.small_sky_counts ∧
  (λ entry, (entry.1, entry.2.1)) <$> _get_partition_info_dict Demo.small_sky_counts
  = Demo.small_sky_counts ∧
  Forall (λ entry, entry.2.2 = [pixel entry.1]) (_get_partition_info_dict Demo.small_sky_counts).
Proof.
  split; [exact small_sky_counts_wf|].
  exact (partition_info_round_trip Demo.small_sky_counts small_sky_counts_wf).
Defined.

Lemma create_modified_catalog_structure_twice_witness :
  structs Demo.store !! 0%nat = Some Demo.small_sky_hc ∧
  infos Demo.store !! catalog_info Demo.small_sky_hc = Some Demo.small_sky_info ∧
  ∃ r1 σ1 r2 σ2 s2 i2 r3 σ3 s3 i3,
    create_modified_catalog_structure Demo.env_ok 0 "/out" "first" (total_rows_kwarg 12)
      Demo.store = (Ok r1, σ1) ∧
    create_modified_catalog_structure Demo.env_ok r1 "/final" "second"
      (mkReplaceKwargs None None (Some "J2015.5") None None) σ1 = (Ok r2, σ2) ∧
    structs σ2 !! r2 = Some s2 ∧
    infos σ2 !! catalog_info s2 = Some i2 ∧
    create_modified_catalog_structure Demo.env_ok 0 "/final" "second"
      (merge_kwargs (mkReplaceKwargs None None (Some "J2015.5") None None)
         (total_rows_kwarg 12)) Demo.store = (Ok r3, σ3) ∧
    structs σ3 !! r3 = Some s3 ∧
    infos σ3 !! catalog_info s3 = Some i3 ∧
    i2 = i3 ∧
    i2 = replaced Demo.small_sky_info "second"
           (merge_kwargs (mkReplaceKwargs None None (Some "J2015.5") None None)
              (total_rows_kwarg 12)) ∧
    with_catalog_info (catalog_info s3) s2 = s3.
Proof.
  split; [reflexivity|]. split; [reflexivity|].
  exact (create_modified_catalog_structure_twice Demo.env_ok 0 "/out" "first"
           (total_rows_kwarg 12) "/final" "second"
           (mkReplaceKwargs None None (Some "J2015.5") None None)
           Demo.store Demo.small_sky_hc Demo.small_sky_info eq_refl eq_refl).
Defined.

(** Renamed twice: the name and path of the second call, the row count of
    the first, the epoch of the second. *)
Example renamed_twice_descriptor :
  map_to_list (infos Demo.renamed_twice) !! 0%nat
  = Some (2%nat, mkCatalogInfo "second" "object" 12 "J2015.5" "ra" "dec").
Proof. by vm_compute. Qed.

Lemma create_modified_catalog_structure_new_descriptor_witness :
  structs Demo.store !! 0%nat = Some Demo.small_sky_hc ∧
  infos Demo.store !! catalog_info Demo.small_sky_hc = Some Demo.small_sky_info ∧
  create_modified_catalog_structure Demo.env_ok 0 "/out" "copy" (total_rows_kwarg 12)
    Demo.store = (Ok 1%nat, Demo.modified) ∧
  ∃ s', structs Demo.modified !! 1%nat = Some s' ∧
    infos Demo.store !! catalog_info s' = None ∧
    is_Some (infos Demo.modified !! catalog_info s') ∧
    catalog_info s' ≠ catalog_info Demo.small_sky_hc ∧
    ∀ l o, structs Demo.store !! l = Some o →
      is_Some (infos Demo.store !! catalog_info o) →
      catalog_info o ≠ catalog_info s'.
Proof.
  assert (create_modified_catalog_structure Demo.env_ok 0 "/out" "copy"
            (total_rows_kwarg 12) Demo.store = (Ok 1%nat, Demo.modified)) as Hrun
    by (vm_compute; reflexivity).
  split; [reflexivity|]. split; [reflexivity|]. split; [exact Hrun|].
  exact (create_modified_catalog_structure_new_descriptor Demo.env_ok 0 "/out" "copy"
           (total_rows_kwarg 12) Demo.store Demo.small_sky_hc Demo.small_sky_info
           1%nat Demo.modified eq_refl eq_refl Hrun).
Defined.


Lemma to_hipscat_parquet_metadata_failure_witness :
  io Demo.env_metadata_refused
    (MakeDirectory (get_file_pointer_from_path Demo.env_metadata_refused "/out")) Demo.store
  = (Ok tt, Demo.dir_made_refusing) ∧
  write_partitions Demo.env_metadata_refused Demo.small_sky
    (get_file_pointer_from_path Demo.env_metadata_refused "/out") None Demo.dir_made_refusing
  = (Ok Demo.small_sky_counts, Demo.tiles_written_refusing) ∧
  io_outcome Demo.env_metadata_refused (disk Demo.tiles_written_refusing)
    (WriteParquetMetadata "/out" None) = Some (OSError "Permission denied") ∧
  to_hipscat Demo.env_metadata_refused Demo.small_sky "/out" None None Demo.store
  = (Raise (OSError "Permission denied"), Demo.tiles_written_refusing) ∧
  structs Demo.tiles_written_refusing = structs Demo.store ∧
  infos Demo.tiles_written_refusing = infos Demo.store ∧
  kind_of <$> new_calls Demo.store Demo.tiles_written_refusing
  = KMakeDirectory ::
    replicate (length (PyDict.items (_ddf_pixel_map Demo.small_sky))) KWriteDataframeToParquet.
Proof.
  assert (io Demo.env_metadata_refused
            (MakeDirectory (get_file_pointer_from_path Demo.env_metadata_refused "/out"))
            Demo.store = (Ok tt, Demo.dir_made_refusing)) as Hmk by (vm_compute; reflexivity).
  assert (write_partitions Demo.env_metadata_refused Demo.small_sky
            (get_file_pointer_from_path Demo.env_metadata_refused "/out") None
            Demo.dir_made_refusing
          = (Ok Demo.small_sky_counts, Demo.tiles_written_refusing)) as Hwp
    by (vm_compute; reflexivity).
  split; [exact Hmk|]. split; [exact Hwp|]. split; [reflexivity|].
  exact (to_hipscat_parquet_metadata_failure Demo.env_metadata_refused Demo.small_sky "/out"
           None None Demo.store Demo.dir_made_refusing Demo.small_sky_counts
           Demo.tiles_written_refusing (OSError "Permission denied") Hmk Hwp eq_refl).
Defined.

Lemma write_partitions_counts_of_catalog_witness :
  write_partitions Demo.env_ok Demo.small_sky "/out" None Demo.store
  = (Ok Demo.small_sky_counts,
     (write_partitions Demo.env_ok Demo.small_sky "/out" None Demo.store).2) ∧
  write_partitions Demo.env_occupied Demo.small_sky "/elsewhere" Demo.credentials
    Demo.dir_made_ok
  = (Ok Demo.small_sky_counts,
     (write_partitions Demo.env_occupied Demo.small_sky "/elsewhere" Demo.credentials
        Demo.dir_made_ok).2) ∧
  Demo.small_sky_counts = Demo.small_sky_counts.
Proof.
  assert (write_partitions Demo.env_ok Demo.small_sky "/out" None Demo.store
          = (Ok Demo.small_sky_counts,
             (write_partitions Demo.env_ok Demo.small_sky "/out" None Demo.store).2)) as H1
    by (vm_compute; reflexivity).
  assert (write_partitions Demo.env_occupied Demo.small_sky "/elsewhere" Demo.credentials
            Demo.dir_made_ok
          = (Ok Demo.small_sky_counts,
             (write_partitions Demo.env_occupied Demo.small_sky "/elsewhere"
                Demo.credentials Demo.dir_made_ok).2)) as H2
    by (vm_compute; reflexivity).
  split; [exact H1|]. split; [exact H2|].
  exact (write_partitions_counts_of_catalog Demo.env_ok Demo.env_occupied Demo.small_sky
           "/out" None Demo.store Demo.small_sky_counts _
           "/elsewhere" Demo.credentials Demo.dir_made_ok Demo.small_sky_counts _ H1 H2).
Defined.

Lemma to_hipscat_again_witness :
  to_hipscat Demo.env_ok Demo.small_sky "/out" None None Demo.store
  = (Ok tt, Demo.exported None) ∧
  to_hipscat Demo.env_ok Demo.small_sky "/out" None None (Demo.exported None)
  = (Ok tt, Demo.exported_again) ∧
  partition_infos_written (new_calls (Demo.exported None) Demo.exported_again)
  = partition_infos_written (new_calls Demo.store (Demo.exported None)) ∧
  catalog_infos_written (new_calls (Demo.exported None) Demo.exported_again)
  = catalog_infos_written (new_calls Demo.store (Demo.exported None)) ∧
  provenance_written (new_calls (Demo.exported None) Demo.exported_again)
  = provenance_written (new_calls Demo.store (Demo.exported None)) ∧
  structs (Demo.exported None) ⊆ structs Demo.exported_again ∧
  infos (Demo.exported None) ⊆ infos Demo.exported_again.
Proof.
  assert (to_hipscat Demo.env_ok Demo.small_sky "/out" None None Demo.store
          = (Ok tt, Demo.exported None)) as H1 by (vm_compute; reflexivity).
  assert (to_hipscat Demo.env_ok Demo.small_sky "/out" None None (Demo.exported None)
          = (Ok tt, Demo.exported_again)) as H2 by (vm_compute; reflexivity).
  split; [exact H1|]. split; [exact H2|].
  exact (to_hipscat_again Demo.env_ok Demo.small_sky "/out" None None
           Demo.store (Demo.exported None) Demo.exported_again H1 H2).
Defined.

Lemma to_hipscat_storage_options_witness :
  to_hipscat Demo.env_ok Demo.small_sky "/out" None Demo.credentials Demo.store
  = (Ok tt, Demo.exported_with_credentials) ∧
  Forall (λ c, c = MakeDirectory (get_file_pointer_from_path Demo.env_ok "/out") ∨
               call_storage_options c = Some Demo.credentials)
    (new_calls Demo.store Demo.exported_with_credentials).
Proof.
  assert (to_hipscat Demo.env_ok Demo.small_sky "/out" None Demo.credentials Demo.store
          = (Ok tt, Demo.exported_with_credentials)) as Hrun by (vm_compute; reflexivity).
  split; [exact Hrun|].
  exact (to_hipscat_storage_options Demo.env_ok Demo.small_sky "/out" None Demo.credentials
           Demo.store (Ok tt) Demo.exported_with_credentials Hrun).
Defined.
